(** * Loan calculator: the schedule generator, the form handlers and the
      validation schema of [src/app/index.tsx]

    The component keeps three watched form fields ([loanAmount], [months],
    [interestRatePerMonth]), a selected month, the rate typed in the edit
    modal and one key of the device storage.  This file embeds the pure
    helpers and the event handlers of the component as functions on an
    explicit state record and proves properties of them.

    Numbers.  A TypeScript [number] is modelled by the type [number] below:
    a finite value, [NaN], [Infinity] or [-Infinity].  Finite values are
    exact rationals: rounding, overflow of a finite result and the sign of
    zero are not modelled.  The special values follow IEEE 754 as JavaScript
    exposes it (every comparison with [NaN] is false, [Infinity * 0] is
    [NaN], and so on).

    Rounding.  The operations [JS.add], [JS.mul] and [JS.div] are exact.
    The properties proved with them either do not depend on the value an
    operation returns (they equate the same operations, or speak of the
    shape of the table, of comparisons and of integers that doubles hold
    exactly), or say so.  The order of the amounts along the schedule does
    depend on rounding: it is proved for the generator over rounded
    operations ([generateTableData_fl]), for every rounding function that is
    monotone and accurate to the unit roundoff of doubles. *)

From Stdlib Require Import QArith Qround Qminmax Qpower Qreduction ZArith
  Lia Lqa Bool.
From stdpp Require Import base option list gmap strings.

Local Open Scope Z_scope.

(** ** JavaScript numbers *)

Module JS.

Inductive number : Type :=
| Fin (q : Q)
| NaN
| PosInf
| NegInf.

Definition ofZ (z : Z) : number := Fin (inject_Z z).

Definition Qlt_bool (x y : Q) : bool := negb (Qle_bool y x).

Definition isNaN (x : number) : bool :=
  match x with NaN => true | _ => false end.

(** [a < b] *)
Definition lt (a b : number) : bool :=
  match a, b with
  | NaN, _ | _, NaN => false
  | Fin p, Fin q => Qlt_bool p q
  | NegInf, NegInf => false
  | NegInf, _ => true
  | _, NegInf => false
  | PosInf, _ => false
  | Fin _, PosInf => true
  end.

(** [a === b] on numbers *)
Definition strict_eq (a b : number) : bool :=
  match a, b with
  | Fin p, Fin q => Qeq_bool p q
  | PosInf, PosInf => true
  | NegInf, NegInf => true
  | _, _ => false
  end.

(** [a <= b] *)
Definition le (a b : number) : bool := lt a b || strict_eq a b.

(** [a > b] and [a >= b] *)
Definition gt (a b : number) : bool := lt b a.
Definition ge (a b : number) : bool := le b a.

Definition neg (a : number) : number :=
  match a with
  | Fin q => Fin (- q)
  | NaN => NaN
  | PosInf => NegInf
  | NegInf => PosInf
  end.

(** [a + b] *)
Definition add (a b : number) : number :=
  match a, b with
  | NaN, _ | _, NaN => NaN
  | Fin p, Fin q => Fin (p + q)
  | PosInf, NegInf | NegInf, PosInf => NaN
  | PosInf, _ | _, PosInf => PosInf
  | NegInf, _ | _, NegInf => NegInf
  end.

(** An infinity of the sign of [q] times the sign [pos]; [NaN] when [q]
    is zero. *)
Definition signed_inf (pos : bool) (q : Q) : number :=
  if Qeq_bool q 0 then NaN
  else if xorb pos (Qlt_bool q 0) then PosInf else NegInf.

(** [a * b] *)
Definition mul (a b : number) : number :=
  match a, b with
  | NaN, _ | _, NaN => NaN
  | Fin p, Fin q => Fin (p * q)
  | PosInf, Fin q | Fin q, PosInf => signed_inf true q
  | NegInf, Fin q | Fin q, NegInf => signed_inf false q
  | PosInf, PosInf | NegInf, NegInf => PosInf
  | PosInf, NegInf | NegInf, PosInf => NegInf
  end.

(** [a / b]; a zero divisor is the positive zero. *)
Definition div (a b : number) : number :=
  match a, b with
  | NaN, _ | _, NaN => NaN
  | Fin p, Fin q =>
      if Qeq_bool q 0 then signed_inf true p else Fin (p / q)
  | Fin _, (PosInf | NegInf) => Fin 0
  | PosInf, Fin q => if Qlt_bool q 0 then NegInf else PosInf
  | NegInf, Fin q => if Qlt_bool q 0 then PosInf else NegInf
  | (PosInf | NegInf), (PosInf | NegInf) => NaN
  end.

(** [Math.ceil] *)
Definition ceil (a : number) : number :=
  match a with
  | Fin q => ofZ (Qceiling q)
  | _ => a
  end.

(** [Math.min(a, b)]: [NaN] as soon as one argument is [NaN]. *)
Definition min (a b : number) : number :=
  if isNaN a || isNaN b then NaN else if lt b a then b else a.

(** [x || 0] for [x : number | undefined]: [undefined], [0] and [NaN] are
    falsy. *)
Definition or_zero (x : option number) : number :=
  match x with
  | None => Fin 0
  | Some NaN => Fin 0
  | Some (Fin q) => if Qeq_bool q 0 then Fin 0 else Fin q
  | Some v => v
  end.

(** [a - b] *)
Definition sub (a b : number) : number := add a (neg b).

(** [Math.max(a, b)]: [NaN] as soon as one argument is [NaN]. *)
Definition max (a b : number) : number :=
  if isNaN a || isNaN b then NaN else if lt a b then b else a.

(** [Object.is(a, b)] on numbers, the comparison React applies to the
    dependencies of an effect: as [===], except that [NaN] is itself. *)
Definition same_value (a b : number) : bool :=
  match a, b with
  | NaN, NaN => true
  | _, _ => strict_eq a b
  end.

End JS.

Import JS.

(** ** Form state, storage and component state *)

(** [type LoanForm = z.infer<typeof loanFormSchema>]: three optional
    numbers; [None] is [undefined]. *)
Record LoanForm : Type := mkLoanForm {
  loanAmount : option number;
  months : option number;
  interestRatePerMonth : option number;
}.

Inductive FieldName : Type :=
| f_loanAmount
| f_months
| f_interestRatePerMonth.

(** The device key-value store.  A call on a [failing] store rejects, which
    is what the [try]/[catch] blocks of the component handle. *)
Record AsyncStorage : Type := mkStorage {
  items : gmap string string;
  failing : bool;
}.

Record State : Type := mkState {
  form : LoanForm;
  showInterestRateModal : bool;
  selectedMonth : option number;      (* [None] is [null] *)
  modalInterestRate : option number;
  storage : AsyncStorage;
  alerts : list (string * string);    (* [Alert.alert(title, message)] *)
}.

Definition CUSTOM_INTEREST_RATE_KEY : string := "customInterestRate".

(** [useForm] default values and the initial [useState] values, on a given
    store. *)
Definition defaultValues : LoanForm :=
  {| loanAmount := None;
     months := Some (ofZ 1);
     interestRatePerMonth := Some (ofZ 10) |}.

Definition initialState (s : AsyncStorage) : State :=
  {| form := defaultValues;
     showInterestRateModal := false;
     selectedMonth := None;
     modalInterestRate := None;
     storage := s;
     alerts := [] |}.

Definition getValues (name : FieldName) (f : LoanForm) : option number :=
  match name with
  | f_loanAmount => loanAmount f
  | f_months => months f
  | f_interestRatePerMonth => interestRatePerMonth f
  end.

Definition setFormValue (name : FieldName) (v : option number) (f : LoanForm)
  : LoanForm :=
  match name with
  | f_loanAmount =>
      {| loanAmount := v; months := months f;
         interestRatePerMonth := interestRatePerMonth f |}
  | f_months =>
      {| loanAmount := loanAmount f; months := v;
         interestRatePerMonth := interestRatePerMonth f |}
  | f_interestRatePerMonth =>
      {| loanAmount := loanAmount f; months := months f;
         interestRatePerMonth := v |}
  end.

Definition with_form (f : LoanForm) (st : State) : State :=
  {| form := f;
     showInterestRateModal := showInterestRateModal st;
     selectedMonth := selectedMonth st;
     modalInterestRate := modalInterestRate st;
     storage := storage st;
     alerts := alerts st |}.

(** [setValue(name, v)] *)
Definition setValue (name : FieldName) (v : option number) (st : State)
  : State :=
  with_form (setFormValue name v (form st)) st.

Definition setShowInterestRateModal (b : bool) (st : State) : State :=
  {| form := form st;
     showInterestRateModal := b;
     selectedMonth := selectedMonth st;
     modalInterestRate := modalInterestRate st;
     storage := storage st;
     alerts := alerts st |}.

Definition setSelectedMonth (m : option number) (st : State) : State :=
  {| form := form st;
     showInterestRateModal := showInterestRateModal st;
     selectedMonth := m;
     modalInterestRate := modalInterestRate st;
     storage := storage st;
     alerts := alerts st |}.

Definition setModalInterestRate (r : option number) (st : State) : State :=
  {| form := form st;
     showInterestRateModal := showInterestRateModal st;
     selectedMonth := selectedMonth st;
     modalInterestRate := r;
     storage := storage st;
     alerts := alerts st |}.

Definition with_storage (s : AsyncStorage) (st : State) : State :=
  {| form := form st;
     showInterestRateModal := showInterestRateModal st;
     selectedMonth := selectedMonth st;
     modalInterestRate := modalInterestRate st;
     storage := s;
     alerts := alerts st |}.

Definition alert (title message : string) (st : State) : State :=
  {| form := form st;
     showInterestRateModal := showInterestRateModal st;
     selectedMonth := selectedMonth st;
     modalInterestRate := modalInterestRate st;
     storage := storage st;
     alerts := alerts st ++ [(title, message)] |}.

(** [AsyncStorage.setItem], [getItem] and [removeItem]: [None] when the
    call rejects. *)
Definition setItem (key value : string) (s : AsyncStorage)
  : option AsyncStorage :=
  if failing s then None
  else Some {| items := <[key := value]> (items s); failing := failing s |}.

Definition getItem (key : string) (s : AsyncStorage)
  : option (option string) :=
  if failing s then None else Some (items s !! key).

Definition removeItem (key : string) (s : AsyncStorage)
  : option AsyncStorage :=
  if failing s then None
  else Some {| items := delete key (items s); failing := failing s |}.

(** ** The validation schema *)

Inductive ZodIssue : Type :=
| invalid_type (message : string)
| too_small (message : string)
| too_big (message : string).

(** [z.coerce.number({ invalid_type_error }).min(v, msg).max(v, msg)
    .optional()] *)
Record ZodNumber : Type := mkZodNumber {
  invalid_type_error : string;
  min_value : number;
  min_message : string;
  max_value : number;
  max_message : string;
}.

(** The issues zod reports for an input: none for [undefined] (the field
    is optional); the type error for [NaN]; otherwise [too_small] when the
    input is below the minimum and [too_big] when it is above the maximum,
    both bounds being inclusive. *)
Definition safeParse (s : ZodNumber) (input : option number)
  : list ZodIssue :=
  match input with
  | None => []
  | Some v =>
      if isNaN v then [invalid_type (invalid_type_error s)]
      else (if lt v (min_value s) then [too_small (min_message s)] else [])
        ++ (if gt v (max_value s) then [too_big (max_message s)] else [])
  end.

Definition loanFormSchema (name : FieldName) : ZodNumber :=
  match name with
  | f_loanAmount =>
      {| invalid_type_error := "Please enter a valid number";
         min_value := ofZ 1;
         min_message := "Loan amount must be greater than 0";
         max_value := ofZ 1000000;
         max_message := "Loan amount must be less than 1,000,000" |}
  | f_months =>
      {| invalid_type_error := "Please enter a valid number";
         min_value := ofZ 1;
         min_message := "Months must be at least 1";
         max_value := ofZ 360;
         max_message := "Months cannot exceed 360" |}
  | f_interestRatePerMonth =>
      {| invalid_type_error := "Please enter a valid number";
         min_value := Fin (1 # 10);
         min_message := "Interest rate must be at least 0.1%";
         max_value := ofZ 100;
         max_message := "Interest rate cannot exceed 100%" |}
  end.

(** The resolver's verdict on one field of the form. *)
Definition validate (name : FieldName) (f : LoanForm) : list ZodIssue :=
  safeParse (loanFormSchema name) (getValues name f).

Definition is_range_error (i : ZodIssue) : bool :=
  match i with
  | too_small _ | too_big _ => true
  | invalid_type _ => false
  end.

Definition range_error (issues : list ZodIssue) : bool :=
  existsb is_range_error issues.

(** ** The schedule generator *)

Record Row : Type := mkRow {
  month : number;
  interestAmount : number;
  totalAmount : number;
  monthlyPayment : number;
}.

(** [calculateInterest(loan, rate, numMonths)].  The three
    [=== undefined] tests of the source are false on every [number]. *)
Definition calculateInterest (loan rate numMonths : number) : number :=
  if isNaN loan || isNaN rate || isNaN numMonths then ofZ 0
  else mul (mul loan (div rate (ofZ 100))) numMonths.

(** The body of the [for] loop of [generateTableData] at counter [i]. *)
Definition tableRow (loanAmount interestRatePerMonth : number) (i : Z)
  : Row :=
  let interest := calculateInterest loanAmount interestRatePerMonth (ofZ i) in
  let totalAmount := add loanAmount interest in
  let monthlyPayment :=
    if gt (ofZ i) (ofZ 0) then div totalAmount (ofZ i) else totalAmount in
  {| month := ofZ i;
     interestAmount := interest;
     totalAmount := totalAmount;
     monthlyPayment := monthlyPayment |}.

(** [for (let i = ...; i <= bound; i++) data.push(body(i))], started at
    counter [i].  [None] when [fuel] iterations do not reach the exit. *)
Fixpoint for_loop (fuel : nat) (body : Z -> Row) (i : Z) (bound : number)
  : option (list Row) :=
  match fuel with
  | O => None
  | S fuel' =>
      if le (ofZ i) bound
      then match for_loop fuel' body (i + 1) bound with
           | Some data => Some (body i :: data)
           | None => None
           end
      else Some []
  end.

(** The loop bound never exceeds 360, so 361 tests of the loop condition
    always reach the exit ([generateTableData_returns] below). *)
Definition loop_fuel : nat := 361.

Definition actualMonthsToShow (months : number) : number :=
  JS.min (mul (ceil (div months (ofZ 12))) (ofZ 12)) (ofZ 360).

(** [generateTableData()], reading the watched form values. *)
Definition generateTableData (f : LoanForm) : option (list Row) :=
  match loanAmount f, interestRatePerMonth f, months f with
  | Some loanAmount, Some interestRatePerMonth, Some months =>
      if ge months (ofZ 1)
      then for_loop loop_fuel (tableRow loanAmount interestRatePerMonth) 1
             (actualMonthsToShow months)
      else Some []
  | _, _, _ => Some []
  end.

(** ** The summary of the selected month *)

(** The result of [getSelectedMonthSummary]: a row, [null] (nothing
    selected and an empty table) or [undefined] ([find] matched no row). *)
Inductive Summary : Type :=
| summary_row (r : Row)
| summary_null
| summary_undefined.

Definition getSelectedMonthSummary (selectedMonth : option number)
    (tableData : list Row) : Summary :=
  match selectedMonth with
  | None =>
      match tableData with
      | r :: _ => summary_row r
      | [] => summary_null
      end
  | Some m =>
      match List.find (fun item => strict_eq (month item) m) tableData with
      | Some r => summary_row r
      | None => summary_undefined
      end
  end.

(** [summaryData], computed on every render from the table of that
    render. *)
Definition summaryData (st : State) : option Summary :=
  getSelectedMonthSummary (selectedMonth st) <$> generateTableData (form st).

(** The effect that keeps [selectedMonth] on the watched [months]. *)
Definition selectedMonthEffect (st : State) : State :=
  match months (form st) with
  | Some m => setSelectedMonth (Some m) st
  | None => setSelectedMonth None st
  end.

(** ** Event handlers *)

Section Handlers.

(** The runtime's [parseFloat], [parseInt(_, 10)] and
    [Number.prototype.toString]. *)
Variable parseFloat : string -> number.
Variable parseInt10 : string -> number.
Variable toString : number -> string.

Definition handleLoanAmountChange (text : string) (st : State) : State :=
  let num := parseFloat text in
  setValue f_loanAmount (if isNaN num then None else Some num) st.

Definition handleMonthsTextChange (text : string) (st : State) : State :=
  let num := parseInt10 text in
  setValue f_months (if isNaN num then None else Some num) st.

Definition handleMonthsBlur (st : State) : State :=
  let currentMonths := getValues f_months (form st) in
  if isNaN (or_zero currentMonths)
     || match currentMonths with
        | None => true
        | Some m => lt m (ofZ 1)
        end
  then setValue f_months (Some (ofZ 1)) st
  else match currentMonths with
       | Some m =>
           if gt m (ofZ 360) then setValue f_months (Some (ofZ 360)) st
           else st
       | None => st
       end.

Definition handleModalInterestRateTextChange (text : string) (st : State)
  : State :=
  let num := parseFloat text in
  setModalInterestRate (if isNaN num then None else Some num) st.

Definition saveCustomInterestRate (rate : number) (st : State) : State :=
  match setItem CUSTOM_INTEREST_RATE_KEY (toString rate) (storage st) with
  | Some s =>
      setShowInterestRateModal false
        (setValue f_interestRatePerMonth (Some rate) (with_storage s st))
  | None => alert "Error" "Could not save interest rate." st
  end.

Definition handleSaveInterestRate (st : State) : State :=
  match modalInterestRate st with
  | Some rate =>
      if negb (isNaN rate) then saveCustomInterestRate rate st
      else alert "Invalid Input"
             "Please enter a valid number for interest rate." st
  | None =>
      alert "Invalid Input"
        "Please enter a valid number for interest rate." st
  end.

(** [loadCustomInterestRate], run once on mount. *)
Definition loadCustomInterestRate (st : State) : State :=
  match getItem CUSTOM_INTEREST_RATE_KEY (storage st) with
  | Some (Some storedRate) =>
      let parsedRate := parseFloat storedRate in
      if negb (isNaN parsedRate)
         && ge parsedRate (Fin (1 # 10)) && le parsedRate (ofZ 100)
      then setValue f_interestRatePerMonth (Some parsedRate) st
      else match removeItem CUSTOM_INTEREST_RATE_KEY (storage st) with
           | Some s =>
               setValue f_interestRatePerMonth (Some (ofZ 10))
                 (with_storage s st)
           | None => alert "Error" "Could not load saved interest rate." st
           end
  | Some None => st
  | None => alert "Error" "Could not load saved interest rate." st
  end.

(** A tap on a table row (the scroll to the info card is presentation). *)
Definition handleRowClick (month : number) (st : State) : State :=
  setValue f_months (Some month) (setSelectedMonth (Some month) st).

Definition handleMonthsDecrement (st : State) : State :=
  let newMonths :=
    JS.max (ofZ 1) (sub (or_zero (months (form st))) (ofZ 1)) in
  setValue f_months (Some newMonths) st.

Definition handleMonthsIncrement (st : State) : State :=
  let newMonths :=
    JS.min (ofZ 360) (add (or_zero (months (form st))) (ofZ 1)) in
  setValue f_months (Some newMonths) st.

Definition handleCloseInterestRateModal (st : State) : State :=
  setShowInterestRateModal false
    (setModalInterestRate (interestRatePerMonth (form st)) st).

(** [displayMonthsForTitle]: the month of the last row of the table, or
    [months || 0] when the table is empty. *)
Definition displayMonthsForTitle (st : State) : option number :=
  match generateTableData (form st) with
  | Some tableData =>
      Some match last tableData with
           | Some row => month row
           | None => or_zero (months (form st))
           end
  | None => None
  end.

(** *** The component as a transition system *)

(** What the user and the store can make happen.  [RowPress index] is a
    press on the row at [index] of the table of the current render;
    [RateLoaded] is the moment the read started on mount resolves. *)
Inductive Event : Type :=
| LoanAmountText (text : string)
| MonthsText (text : string)
| MonthsDecrement
| MonthsIncrement
| MonthsBlur
| OpenRateModal
| ModalRateText (text : string)
| SaveRate
| CloseRateModal
| RowPress (index : nat)
| RateLoaded.

Definition handle (e : Event) (st : State) : State :=
  match e with
  | LoanAmountText text => handleLoanAmountChange text st
  | MonthsText text => handleMonthsTextChange text st
  | MonthsDecrement => handleMonthsDecrement st
  | MonthsIncrement => handleMonthsIncrement st
  | MonthsBlur => handleMonthsBlur st
  | OpenRateModal => setShowInterestRateModal true st
  | ModalRateText text => handleModalInterestRateTextChange text st
  | SaveRate => handleSaveInterestRate st
  | CloseRateModal => handleCloseInterestRateModal st
  | RowPress index =>
      match generateTableData (form st) with
      | Some tableData =>
          match tableData !! index with
          | Some row => handleRowClick (month row) st
          | None => st
          end
      | None => st
      end
  | RateLoaded => loadCustomInterestRate st
  end.

(** The dependency array [[months, loanAmount, interestRatePerMonth]] of
    the selected-month effect, compared between two renders. *)
Definition same_dep (a b : option number) : bool :=
  match a, b with
  | None, None => true
  | Some x, Some y => same_value x y
  | _, _ => false
  end.

Definition deps_changed (prev next : LoanForm) : bool :=
  negb (same_dep (months prev) (months next)
        && same_dep (loanAmount prev) (loanAmount next)
        && same_dep (interestRatePerMonth prev) (interestRatePerMonth next)).

(** One event, up to the settled state: the handler runs, the component
    renders again with the state [handle e st], and then the
    selected-month effect runs when one of its dependencies changed.
    [step e st] is the state after that effect; the render in between
    shows [handle e st] (see [rendered] below).  A handler that awaits the
    store ([SaveRate], [RateLoaded]) is one step together with its
    continuation. *)
Definition step (e : Event) (st : State) : State :=
  let st' := handle e st in
  if deps_changed (form st) (form st') then selectedMonthEffect st' else st'.

(** The state once the effects of the first render have run.  The first
    render itself shows [initialState s], with no selected month. *)
Definition mount (s : AsyncStorage) : State :=
  selectedMonthEffect (initialState s).

Definition run (es : list Event) (st : State) : State :=
  foldl (fun st e => step e st) st es.

(** The settled states of the component: those it is in once the effects
    of the last render have run, after any sequence of events. *)
Definition reachable (st : State) : Prop :=
  exists s es, st = run es (mount s).

(** The states the component renders: the first render, and every state a
    handler or the selected-month effect produces from a rendered state.
    This covers the settled states and the renders between a handler and
    the effect, in which [selectedMonth] is still the one of the previous
    render. *)
Inductive rendered : State -> Prop :=
| rendered_first (s : AsyncStorage) : rendered (initialState s)
| rendered_handler (e : Event) (st : State) :
    rendered st -> rendered (handle e st)
| rendered_effect (st : State) :
    rendered st -> rendered (selectedMonthEffect st).

End Handlers.

(** ** The schedule generator over rounded arithmetic *)

Section Rounded.

(** The rounding of the exact result of an operation to a double. *)
Variable rnd : Q -> Q.

Definition fl (x : number) : number :=
  match x with
  | Fin q => Fin (rnd q)
  | _ => x
  end.

(** [a + b], [a * b] and [a / b] as the runtime computes them: the exact
    result, rounded. *)
Definition add_fl (a b : number) : number := fl (add a b).
Definition mul_fl (a b : number) : number := fl (mul a b).
Definition div_fl (a b : number) : number := fl (div a b).

Definition calculateInterest_fl (loan rate numMonths : number) : number :=
  if isNaN loan || isNaN rate || isNaN numMonths then ofZ 0
  else mul_fl (mul_fl loan (div_fl rate (ofZ 100))) numMonths.

Definition tableRow_fl (loanAmount interestRatePerMonth : number) (i : Z)
  : Row :=
  let interest :=
    calculateInterest_fl loanAmount interestRatePerMonth (ofZ i) in
  let totalAmount := add_fl loanAmount interest in
  let monthlyPayment :=
    if gt (ofZ i) (ofZ 0) then div_fl totalAmount (ofZ i) else totalAmount in
  {| month := ofZ i;
     interestAmount := interest;
     totalAmount := totalAmount;
     monthlyPayment := monthlyPayment |}.

Definition actualMonthsToShow_fl (months : number) : number :=
  JS.min (mul_fl (ceil (div_fl months (ofZ 12))) (ofZ 12)) (ofZ 360).

Definition generateTableData_fl (f : LoanForm) : option (list Row) :=
  match loanAmount f, interestRatePerMonth f, months f with
  | Some loanAmount, Some interestRatePerMonth, Some months =>
      if ge months (ofZ 1)
      then for_loop loop_fuel (tableRow_fl loanAmount interestRatePerMonth) 1
             (actualMonthsToShow_fl months)
      else Some []
  | _, _, _ => Some []
  end.

End Rounded.

(** The unit roundoff of doubles, [2^-53]. *)
Definition unit_roundoff : Q := 1 # 9007199254740992.

(** What the properties below need of a rounding function: it is monotone
    on positive values, and between [2^-10] and [2^30] (a part of the
    normal range of doubles that holds every amount of a valid schedule)
    the rounded value is within the relative error [2^-53] of the exact
    one.  Rounding to the nearest double ([round53]) has both properties,
    and so has the identity. *)
Definition rounding_monotone (rnd : Q -> Q) : Prop :=
  forall x y : Q, (0 < x)%Q -> (x <= y)%Q -> (rnd x <= rnd y)%Q.

Definition rounding_accurate (rnd : Q -> Q) : Prop :=
  forall x : Q,
    (1 # 1024 <= x <= 1073741824)%Q ->
    (x * (1 - unit_roundoff) <= rnd x <= x * (1 + unit_roundoff))%Q.

(** Rounding to the nearest double, ties to even: the nearest number with
    a significand of 53 bits.  The exponent is not bounded, so overflow
    and subnormal numbers are not modelled; every amount of a valid
    schedule is far from both. *)
Definition pow2 (e : Z) : Q := Qpower 2 e.

(** For [q > 0], the exponent [e] with [2^e <= q < 2^(e+1)]. *)
Definition floor_log2 (q : Q) : Z :=
  let l := Z.log2 (Qnum q) - Z.log2 (Zpos (Qden q)) in
  if Qle_bool (pow2 l) q then l else l - 1.

Definition round_half_even (x : Q) : Z :=
  let f := Qfloor x in
  match Qcompare (x - inject_Z f) (1 # 2) with
  | Lt => f
  | Gt => f + 1
  | Eq => if Z.even f then f else f + 1
  end.

Definition round53_pos (q : Q) : Q :=
  let ulp := pow2 (floor_log2 q - 52) in
  Qred (inject_Z (round_half_even (q / ulp)) * ulp).

Definition round53 (q : Q) : Q :=
  match Qnum q with
  | Z0 => 0%Q
  | Zpos _ => round53_pos q
  | Zneg _ => (- round53_pos (- q))%Q
  end.

(** ** Specification-side definitions *)

(** The display horizon in the words of the specification, for an integer
    term: [min(ceil(termMonths / 12) * 12, 360)], the ceiling of the
    quotient being [(termMonths + 11) / 12] in integer division
    ([ceil_div12_least] below). *)
Definition ceil_div12 (termMonths : Z) : Z := (termMonths + 11) / 12.

Definition horizon (termMonths : Z) : Z :=
  Z.min (ceil_div12 termMonths * 12) 360.

(** The number of rows the generator shows for an arbitrary [months]
    value that passed the [months >= 1] guard. *)
Definition shown (months : number) : Z :=
  match months with
  | Fin q => Z.min (Qceiling (q / 12) * 12) 360
  | _ => 360
  end.

(** [v] is the integer [z]. *)
Definition is_int (v : number) (z : Z) : Prop :=
  exists q, v = Fin q /\ (q == inject_Z z)%Q.

(** [v] lies within the inclusive bounds of a field's schema. *)
Definition within_bounds (name : FieldName) (v : number) : bool :=
  ge v (min_value (loanFormSchema name))
  && le v (max_value (loanFormSchema name)).

(** What holds in every settled state of the component (proved below):
    the selected month is the months field,
    no field holds [NaN], and the rate is always defined. *)
Definition invariant (st : State) : Prop :=
  same_dep (selectedMonth st) (months (form st)) = true
  /\ months (form st) <> Some NaN
  /\ loanAmount (form st) <> Some NaN
  /\ (exists r, interestRatePerMonth (form st) = Some r /\ isNaN r = false)
  /\ modalInterestRate st <> Some NaN.

(** A valid input triple: the ranges of the data model. *)
Definition valid_principal (p : Q) : Prop := (1 <= p <= 1000000)%Q.
Definition valid_rate (r : Q) : Prop := (1 # 10 <= r <= 100)%Q.
Definition valid_term (m : Z) : Prop := 1 <= m <= 360.

(** A sample form (principal 1000, rate 10) and a working empty store,
    used by the concrete instances below. *)
Definition sample_form (termMonths : Z) : LoanForm :=
  {| loanAmount := Some (ofZ 1000);
     months := Some (ofZ termMonths);
     interestRatePerMonth := Some (ofZ 10) |}.

Definition working_storage : AsyncStorage :=
  {| items := ∅; failing := false |}.

(** * Properties *)

(** ** Numbers *)

Lemma Qlt_bool_iff (x y : Q) : Qlt_bool x y = true <-> (x < y)%Q.
Proof.
  unfold Qlt_bool. rewrite negb_true_iff.
  split.
  - intros H. apply Qnot_le_lt. intros Hle.
    apply Qle_bool_iff in Hle. congruence.
  - intros H. destruct (Qle_bool y x) eqn:E; [|reflexivity].
    apply Qle_bool_iff in E. exfalso. exact (Qlt_not_le _ _ H E).
Qed.

Lemma le_Fin (p q : Q) : le (Fin p) (Fin q) = Qle_bool p q.
Proof.
  unfold le; simpl.
  destruct (Qle_bool p q) eqn:E.
  - apply Qle_bool_iff in E. apply orb_true_iff.
    destruct (Qle_lt_or_eq _ _ E) as [Hlt|Heq].
    + left. now apply Qlt_bool_iff.
    + right. now apply Qeq_bool_iff.
  - apply orb_false_iff. split.
    + destruct (Qlt_bool p q) eqn:E'; [|reflexivity].
      apply Qlt_bool_iff, Qlt_le_weak, Qle_bool_iff in E'. congruence.
    + destruct (Qeq_bool p q) eqn:E'; [|reflexivity].
      apply Qeq_bool_iff in E'.
      assert (Qle_bool p q = true) by (apply Qle_bool_iff; rewrite E'; apply Qle_refl).
      congruence.
Qed.

Lemma Qle_bool_Z (a b : Z) : Qle_bool (inject_Z a) (inject_Z b) = (a <=? b).
Proof.
  apply eq_true_iff_eq.
  rewrite Qle_bool_iff, <- Zle_Qle. symmetry. apply Z.leb_le.
Qed.

Lemma Qlt_bool_Z (a b : Z) : Qlt_bool (inject_Z a) (inject_Z b) = (a <? b).
Proof.
  apply eq_true_iff_eq.
  rewrite Qlt_bool_iff, <- Zlt_Qlt. symmetry. apply Z.ltb_lt.
Qed.

Lemma Qeq_bool_Z (a b : Z) : Qeq_bool (inject_Z a) (inject_Z b) = (a =? b).
Proof.
  apply eq_true_iff_eq.
  rewrite Qeq_bool_iff, inject_Z_injective. symmetry. apply Z.eqb_eq.
Qed.

(** A counter is below a finite bound exactly when it is below its
    integer part. *)
Lemma le_ofZ_Fin (i : Z) (q : Q) : le (ofZ i) (Fin q) = (i <=? Qfloor q).
Proof.
  unfold ofZ. rewrite le_Fin. apply eq_true_iff_eq.
  rewrite Qle_bool_iff, Z.leb_le. split.
  - intros H. apply Qfloor_resp_le in H. now rewrite Qfloor_Z in H.
  - intros H. apply Qle_trans with (inject_Z (Qfloor q)).
    + now rewrite Zle_Qle in H.
    + apply Qfloor_le.
Qed.

Lemma gt_ofZ (a b : Z) : gt (ofZ a) (ofZ b) = (b <? a).
Proof. apply Qlt_bool_Z. Qed.

Lemma ge_ofZ (a b : Z) : ge (ofZ a) (ofZ b) = (b <=? a).
Proof. unfold ge, ofZ. rewrite le_Fin. apply Qle_bool_Z. Qed.

Lemma strict_eq_ofZ (a b : Z) : strict_eq (ofZ a) (ofZ b) = (a =? b).
Proof. apply Qeq_bool_Z. Qed.

Lemma div_by_counter (x : Q) (i : Z) :
  1 <= i -> div (Fin x) (ofZ i) = Fin (x / inject_Z i).
Proof.
  intros Hi. unfold div, ofZ.
  change 0%Q with (inject_Z 0). rewrite Qeq_bool_Z.
  destruct (i =? 0) eqn:E; [lia | reflexivity].
Qed.

(** ** The display horizon *)

(** [ceil_div12 m] is the ceiling of [m / 12]: the least integer [k] with
    [m <= 12 * k]. *)
Lemma ceil_div12_least (m k : Z) : ceil_div12 m <= k <-> m <= 12 * k.
Proof.
  unfold ceil_div12. split; intros H.
  - pose proof (Z.mul_div_le (m + 11) 12 ltac:(lia)).
    pose proof (Z.mod_pos_bound (m + 11) 12 ltac:(lia)).
    pose proof (Z.div_mod (m + 11) 12 ltac:(lia)). lia.
  - apply Z.lt_succ_r, Z.div_lt_upper_bound; lia.
Qed.

Lemma Qceiling_div12 (m : Z) : Qceiling (inject_Z m / 12) = ceil_div12 m.
Proof.
  apply Z.le_antisymm.
  - assert (H : (inject_Z m / 12 <= inject_Z (ceil_div12 m))%Q).
    { apply Qle_shift_div_r; [reflexivity|].
      change 12%Q with (inject_Z 12). rewrite <- inject_Z_mult, <- Zle_Qle.
      pose proof (proj1 (ceil_div12_least m (ceil_div12 m)) ltac:(lia)). lia. }
    apply Qceiling_resp_le in H. now rewrite Qceiling_Z in H.
  - apply ceil_div12_least.
    pose proof (Qle_ceiling (inject_Z m / 12)) as H.
    apply (Qmult_le_compat_r _ _ 12) in H; [|discriminate].
    assert (E : (inject_Z m / 12 * 12 == inject_Z m)%Q) by field.
    rewrite E in H. set (c := Qceiling (inject_Z m / 12)) in *.
    change 12%Q with (inject_Z 12) in H.
    rewrite <- inject_Z_mult, <- Zle_Qle in H. lia.
Qed.

Lemma shown_integer (q : Q) (m : Z) :
  (q == inject_Z m)%Q -> shown (Fin q) = horizon m.
Proof.
  intros H. unfold shown, horizon.
  rewrite <- Qceiling_div12. now rewrite H.
Qed.

Lemma shown_bounds (months : number) :
  ge months (ofZ 1) = true -> 12 <= shown months <= 360.
Proof.
  destruct months as [q| | |]; simpl; try lia; try discriminate.
  unfold ge, ofZ. rewrite le_Fin, Qle_bool_iff. intros Hq.
  assert (1 <= Qceiling (q / 12)); [|lia].
  assert (Hlt : (inject_Z 0 < q / 12)%Q).
  { apply Qlt_shift_div_l; [reflexivity|].
    apply Qlt_le_trans with (inject_Z 1); [reflexivity | exact Hq]. }
  pose proof (Qle_ceiling (q / 12)) as Hc.
  pose proof (Qlt_le_trans _ _ _ Hlt Hc) as H0.
  rewrite <- Zlt_Qlt in H0. lia.
Qed.

Lemma horizon_ge_term (m : Z) : valid_term m -> m <= horizon m <= 360.
Proof.
  unfold valid_term, horizon. intros Hm.
  pose proof (proj1 (ceil_div12_least m (ceil_div12 m)) ltac:(lia)). lia.
Qed.

Lemma Qlt_bool_Z_mult (a c b : Z) :
  Qlt_bool (inject_Z a) (inject_Z c * inject_Z b) = (a <? c * b).
Proof.
  apply eq_true_iff_eq.
  rewrite Qlt_bool_iff, <- inject_Z_mult, <- Zlt_Qlt. symmetry. apply Z.ltb_lt.
Qed.

(** The loop condition [i <= actualMonthsToShow] in terms of the integer
    horizon, for every [months] that passed the guard. *)
Lemma actualMonthsToShow_le (months : number) (i : Z) :
  ge months (ofZ 1) = true ->
  le (ofZ i) (actualMonthsToShow months) = (i <=? shown months).
Proof.
  destruct months as [q| | |]; try discriminate; intros _.
  - unfold actualMonthsToShow, shown.
    change (div (Fin q) (ofZ 12)) with (Fin (q / 12)).
    set (c := Qceiling (q / 12)).
    change (JS.min (mul (ceil (Fin (q / 12))) (ofZ 12)) (ofZ 360))
      with (if Qlt_bool (inject_Z 360) (inject_Z c * inject_Z 12)
            then ofZ 360 else Fin (inject_Z c * inject_Z 12)).
    rewrite Qlt_bool_Z_mult.
    destruct (360 <? c * 12) eqn:E.
    + unfold ofZ at 2. rewrite le_ofZ_Fin, Qfloor_Z.
      apply Z.ltb_lt in E. now rewrite Z.min_r by lia.
    + rewrite le_ofZ_Fin, <- inject_Z_mult, Qfloor_Z.
      apply Z.ltb_ge in E. now rewrite Z.min_l by lia.
  - change (actualMonthsToShow PosInf) with (Fin (inject_Z 360)).
    now rewrite le_ofZ_Fin, Qfloor_Z.
Qed.

(** ** The loop *)

Lemma for_loop_seqZ (body : Z -> Row) (bound : number) (n : Z) :
  (forall j, le (ofZ j) bound = (j <=? n)) ->
  forall (fuel : nat) (i : Z),
    (Z.to_nat (n + 1 - i) < fuel)%nat ->
    for_loop fuel body i bound = Some (body <$> seqZ i (n + 1 - i)).
Proof.
  intros Hb fuel. induction fuel as [|fuel IH]; intros i Hfuel; [lia|].
  simpl. rewrite Hb. destruct (i <=? n) eqn:E.
  - apply Z.leb_le in E.
    rewrite IH by lia.
    rewrite (seqZ_cons i) by lia. simpl.
    repeat f_equal; lia.
  - apply Z.leb_gt in E. now rewrite seqZ_nil by lia.
Qed.

(** The table of a form whose three fields are present and whose months
    pass the guard: rows [1 .. shown months], in order. *)
Lemma generateTableData_present (f : LoanForm) (p r m : number) :
  loanAmount f = Some p ->
  interestRatePerMonth f = Some r ->
  months f = Some m ->
  ge m (ofZ 1) = true ->
  generateTableData f = Some (tableRow p r <$> seqZ 1 (shown m)).
Proof.
  intros Hp Hr Hm Hge. unfold generateTableData. rewrite Hp, Hr, Hm, Hge.
  pose proof (shown_bounds m Hge) as Hs.
  rewrite (for_loop_seqZ _ _ (shown m)).
  - repeat f_equal; lia.
  - intros j. now apply actualMonthsToShow_le.
  - unfold loop_fuel. lia.
Qed.

(** The generator always returns: either the empty table, or the rows
    [tableRow p r i] for [i = 1 .. n] with [12 <= n <= 360]. *)
Lemma generateTableData_shape (f : LoanForm) :
  generateTableData f = Some []
  \/ exists p r m,
       loanAmount f = Some p /\ interestRatePerMonth f = Some r
       /\ months f = Some m /\ ge m (ofZ 1) = true
       /\ generateTableData f = Some (tableRow p r <$> seqZ 1 (shown m)).
Proof.
  destruct (loanAmount f) as [p|] eqn:Hp;
    [|left; unfold generateTableData; now rewrite Hp].
  destruct (interestRatePerMonth f) as [r|] eqn:Hr;
    [|left; unfold generateTableData; now rewrite Hp, Hr].
  destruct (months f) as [m|] eqn:Hm;
    [|left; unfold generateTableData; now rewrite Hp, Hr, Hm].
  destruct (ge m (ofZ 1)) eqn:Hge;
    [|left; unfold generateTableData; now rewrite Hp, Hr, Hm, Hge].
  right. exists p, r, m. repeat split; try assumption.
  now apply generateTableData_present.
Qed.

Lemma generateTableData_returns (f : LoanForm) :
  exists rows, generateTableData f = Some rows.
Proof.
  destruct (generateTableData_shape f) as [H|(p & r & m & _ & _ & _ & _ & H)];
    eauto.
Qed.

Lemma elem_of_table (p r : number) (n : Z) (row : Row) :
  row ∈ tableRow p r <$> seqZ 1 n ->
  exists i, 1 <= i <= n /\ row = tableRow p r i.
Proof.
  intros H. apply list_elem_of_fmap in H as (i & -> & Hi).
  apply elem_of_seqZ in Hi. exists i. split; [lia | reflexivity].
Qed.

Lemma lookup_table (p r : number) (n : Z) (j : nat) (row : Row) :
  (tableRow p r <$> seqZ 1 n) !! j = Some row <->
  row = tableRow p r (1 + Z.of_nat j) /\ Z.of_nat j < n.
Proof.
  rewrite list_lookup_fmap. split.
  - intros H. apply fmap_Some in H as (i & Hi & ->).
    apply lookup_seqZ in Hi as [-> Hlt]. auto.
  - intros [-> Hlt]. now rewrite lookup_seqZ_lt.
Qed.

(** ** Rows of the schedule *)

Lemma gt_counter_zero (i : Z) : 1 <= i -> gt (ofZ i) (ofZ 0) = true.
Proof. intros Hi. rewrite gt_ofZ. apply Z.ltb_lt. lia. Qed.

Lemma ofZ_inj (i j : Z) : ofZ i = ofZ j -> i = j.
Proof. unfold ofZ, inject_Z. congruence. Qed.

Lemma tableRow_inj (p r : number) (i j : Z) :
  tableRow p r i = tableRow p r j -> i = j.
Proof. intros H. apply (f_equal month) in H. now apply ofZ_inj. Qed.



(** C2.  For a form whose principal and rate are present (valid ones in
    particular) and whose term is an integer in [1, 360], the generator
    returns exactly [min(ceil(term / 12) * 12, 360)] rows, and their months
    are 1, 2, ..., length in this order. *)
Theorem schedule_length_and_months
    (f : LoanForm) (principal rate : number) (q : Q) (termMonths : Z) :
  loanAmount f = Some principal ->
  interestRatePerMonth f = Some rate ->
  months f = Some (Fin q) ->
  (q == inject_Z termMonths)%Q ->
  valid_term termMonths ->
  exists rows,
    generateTableData f = Some rows
    /\ Z.of_nat (length rows) = horizon termMonths
    /\ month <$> rows = ofZ <$> seqZ 1 (Z.of_nat (length rows)).
Proof.
  intros Hp Hr Hm Hq Hv.
  assert (Hge : ge (Fin q) (ofZ 1) = true).
  { unfold ge, ofZ. rewrite le_Fin. apply Qle_bool_iff. rewrite Hq.
    rewrite <- Zle_Qle. apply Hv. }
  pose proof (horizon_ge_term termMonths Hv) as Hh.
  rewrite (generateTableData_present f _ _ _ Hp Hr Hm Hge).
  rewrite (shown_integer q termMonths Hq).
  eexists. split; [reflexivity|].
  rewrite length_fmap, length_seqZ, Z2Nat.id by (unfold valid_term in Hv; lia).
  split; [reflexivity|].
  rewrite <- list_fmap_compose. reflexivity.
Qed.

Lemma schedule_length_and_months_witness :
  exists rows,
    generateTableData (sample_form 13) = Some rows
    /\ Z.of_nat (length rows) = horizon 13
    /\ month <$> rows = ofZ <$> seqZ 1 (Z.of_nat (length rows)).
Proof.
  apply (schedule_length_and_months (sample_form 13) (ofZ 1000) (ofZ 10)
           (inject_Z 13) 13); try reflexivity.
  unfold valid_term. lia.
Defined.

(** C9.  Every row the generator emits has [month >= 1]: the test [i > 0]
    of the loop body holds at every row, the divisor [month] is not zero,
    and [monthlyPayment] is the quotient [totalAmount / month], never the
    undivided fallback. *)
Theorem rows_month_at_least_one (f : LoanForm) :
  exists rows,
    generateTableData f = Some rows
    /\ forall row, row ∈ rows ->
         ge (month row) (ofZ 1) = true
         /\ gt (month row) (ofZ 0) = true
         /\ strict_eq (month row) (ofZ 0) = false
         /\ monthlyPayment row = div (totalAmount row) (month row).
Proof.
  destruct (generateTableData_shape f)
    as [H|(p & r & m & _ & _ & _ & _ & H)].
  - exists []. split; [exact H|]. intros row Hrow. inversion Hrow.
  - eexists. split; [exact H|]. intros row Hrow.
    apply elem_of_table in Hrow as (i & Hi & ->).
    unfold tableRow.
    cbn [month interestAmount totalAmount monthlyPayment].
    rewrite ge_ofZ, gt_counter_zero, strict_eq_ofZ by lia.
    repeat split; [apply Z.leb_le | apply Z.eqb_neq]; lia.
Qed.

(** The boundary values of the horizon and the sample rows of months 1 and
    12 for principal 1000 and rate 10. *)
Example horizon_boundaries :
  horizon 1 = 12 /\ horizon 12 = 12 /\ horizon 13 = 24
  /\ horizon 349 = 360 /\ horizon 360 = 360.
Proof. repeat split. Qed.

Example sample_rows :
  tableRow (ofZ 1000) (ofZ 10) 1
    = {| month := ofZ 1; interestAmount := Fin (10000 # 100);
         totalAmount := Fin (110000 # 100);
         monthlyPayment := Fin (110000 # 100) |}
  /\ tableRow (ofZ 1000) (ofZ 10) 12
    = {| month := ofZ 12; interestAmount := Fin (120000 # 100);
         totalAmount := Fin (220000 # 100);
         monthlyPayment := Fin (220000 # 1200) |}.
Proof. split; reflexivity. Qed.

(** ** The focused row *)

Lemma strict_eq_counter (i m : Z) (q : Q) :
  (q == inject_Z m)%Q -> strict_eq (ofZ i) (Fin q) = (i =? m).
Proof.
  intros Hq. unfold strict_eq, ofZ. apply eq_true_iff_eq.
  rewrite Qeq_bool_iff, Hq, inject_Z_injective. symmetry. apply Z.eqb_eq.
Qed.

(** [tableData.find((item) => item.month === selectedMonth)] on rows
    [start .. start + len - 1] returns the row of month [m] when [m] is
    among them. *)
Lemma find_table (p r : number) (q : Q) (m : Z) :
  (q == inject_Z m)%Q ->
  forall (k : nat) (start len : Z),
    m = start + Z.of_nat k -> m < start + len ->
    List.find (fun item => strict_eq (month item) (Fin q))
      (tableRow p r <$> seqZ start len)
    = Some (tableRow p r m).
Proof.
  intros Hq k. induction k as [|k IH]; intros start len Hm Hlen.
  - rewrite seqZ_cons, fmap_cons by lia. cbn [List.find tableRow month].
    rewrite (strict_eq_counter _ m) by exact Hq.
    replace start with m by lia. now rewrite Z.eqb_refl.
  - rewrite seqZ_cons, fmap_cons by lia. cbn [List.find tableRow month].
    rewrite (strict_eq_counter _ m) by exact Hq.
    destruct (start =? m) eqn:E; [apply Z.eqb_eq in E; lia|].
    apply IH; lia.
Qed.

Lemma last_table (p r : number) (n : Z) :
  1 <= n -> last (tableRow p r <$> seqZ 1 n) = Some (tableRow p r n).
Proof.
  intros Hn. rewrite last_lookup, length_fmap, length_seqZ.
  apply lookup_table. split; [f_equal|]; lia.
Qed.

Lemma horizon_is_term (m : Z) :
  valid_term m -> horizon m = m <-> m mod 12 = 0.
Proof.
  unfold valid_term, horizon, ceil_div12. intros Hm.
  pose proof (Z.div_mod (m + 11) 12 ltac:(lia)).
  pose proof (Z.mod_pos_bound (m + 11) 12 ltac:(lia)).
  pose proof (Z.div_mod m 12 ltac:(lia)).
  pose proof (Z.mod_pos_bound m 12 ltac:(lia)).
  lia.
Qed.

Lemma form_selectedMonthEffect (st : State) :
  form (selectedMonthEffect st) = form st.
Proof. unfold selectedMonthEffect. now destruct (months (form st)). Qed.

Lemma selectedMonth_selectedMonthEffect (st : State) :
  selectedMonth (selectedMonthEffect st) = months (form st).
Proof. unfold selectedMonthEffect. now destruct (months (form st)). Qed.

(** The table and the result of [find] for a present principal and rate
    and an integer term in [1, 360]. *)
Lemma term_row_found (f : LoanForm) (p r : number) (q : Q) (m : Z) :
  loanAmount f = Some p ->
  interestRatePerMonth f = Some r ->
  months f = Some (Fin q) ->
  (q == inject_Z m)%Q ->
  valid_term m ->
  generateTableData f = Some (tableRow p r <$> seqZ 1 (horizon m))
  /\ getSelectedMonthSummary (Some (Fin q))
       (tableRow p r <$> seqZ 1 (horizon m))
     = summary_row (tableRow p r m).
Proof.
  intros Hp Hr Hm Hq Hv.
  assert (Hge : ge (Fin q) (ofZ 1) = true).
  { unfold ge, ofZ. rewrite le_Fin. apply Qle_bool_iff. rewrite Hq.
    rewrite <- Zle_Qle. apply Hv. }
  pose proof (horizon_ge_term m Hv) as Hh.
  rewrite (generateTableData_present f _ _ _ Hp Hr Hm Hge).
  rewrite (shown_integer q m Hq). split; [reflexivity|].
  unfold getSelectedMonthSummary.
  rewrite (find_table p r q m Hq (Z.to_nat (m - 1)) 1 (horizon m)); [reflexivity| |].
  - unfold valid_term in Hv. lia.
  - lia.
Qed.

(** C5 (as stated) fails: with principal 1000, rate 10 and a term of 5
    months, the default focus is the row of month 5, while the last row of
    the schedule is the row of month 12. *)
Lemma default_focus_not_last_row :
  let st := selectedMonthEffect
              (with_form (sample_form 5) (initialState working_storage)) in
  exists rows row last_row,
    generateTableData (form st) = Some rows
    /\ summaryData st = Some (summary_row row)
    /\ month row = ofZ 5
    /\ last rows = Some last_row
    /\ month last_row = ofZ 12
    /\ row <> last_row.
Proof.
  do 3 eexists. split; [vm_compute; reflexivity|].
  split; [vm_compute; reflexivity|].
  split; [reflexivity|].
  split; [reflexivity|].
  split; [reflexivity|].
  discriminate.
Qed.

(** C5 (amended).  In the default selection state, with principal and
    rate present and an integer term in [1, 360], the focused row is the
    row whose month equals the term (the row at index [term - 1]); it is
    the last row of the schedule exactly when the term is a multiple of
    12. *)
Theorem default_focus_is_term_row
    (st : State) (principal rate : number) (q : Q) (termMonths : Z) :
  loanAmount (form st) = Some principal ->
  interestRatePerMonth (form st) = Some rate ->
  months (form st) = Some (Fin q) ->
  (q == inject_Z termMonths)%Q ->
  valid_term termMonths ->
  exists rows row,
    generateTableData (form (selectedMonthEffect st)) = Some rows
    /\ summaryData (selectedMonthEffect st) = Some (summary_row row)
    /\ month row = ofZ termMonths
    /\ rows !! Z.to_nat (termMonths - 1) = Some row
    /\ (last rows = Some row <-> termMonths mod 12 = 0).
Proof.
  intros Hp Hr Hm Hq Hv.
  destruct (term_row_found _ _ _ _ _ Hp Hr Hm Hq Hv) as [Hgen Hfind].
  pose proof (horizon_ge_term termMonths Hv) as Hh.
  assert (Hv' := Hv). unfold valid_term in Hv'.
  exists (tableRow principal rate <$> seqZ 1 (horizon termMonths)),
         (tableRow principal rate termMonths).
  unfold summaryData.
  rewrite form_selectedMonthEffect, selectedMonth_selectedMonthEffect.
  rewrite Hgen, Hm. cbn [fmap option_fmap option_map]. rewrite Hfind.
  split; [reflexivity|]. split; [reflexivity|]. split; [reflexivity|].
  split.
  - apply lookup_table. split; [f_equal|]; lia.
  - rewrite last_table by lia. rewrite <- (horizon_is_term termMonths Hv).
    split.
    + intros H. apply (inj Some) in H. now apply tableRow_inj in H.
    + intros H. now rewrite H.
Qed.

Lemma default_focus_is_term_row_witness :
  exists rows row,
    generateTableData
      (form (selectedMonthEffect
               (with_form (sample_form 24) (initialState working_storage))))
      = Some rows
    /\ summaryData
         (selectedMonthEffect
            (with_form (sample_form 24) (initialState working_storage)))
       = Some (summary_row row)
    /\ month row = ofZ 24
    /\ rows !! Z.to_nat (24 - 1) = Some row
    /\ (last rows = Some row <-> 24 mod 12 = 0).
Proof.
  apply (default_focus_is_term_row
           (with_form (sample_form 24) (initialState working_storage))
           (ofZ 1000) (ofZ 10) (inject_Z 24) 24); try reflexivity.
  unfold valid_term. lia.
Defined.

(** C10 (as stated) fails: in the initial state of the component the term
    is 1 but no principal has been entered, so the schedule is empty and
    the default focus resolves to no row. *)
Lemma default_focus_unresolved_without_principal :
  let st := selectedMonthEffect (initialState working_storage) in
  months (form st) = Some (ofZ 1)
  /\ valid_term 1
  /\ generateTableData (form st) = Some []
  /\ summaryData st = Some summary_undefined.
Proof.
  split; [reflexivity|]. split; [unfold valid_term; lia|].
  split; reflexivity.
Qed.

(** C10 (amended).  When principal and rate are present, for every integer
    term in [1, 360] the display horizon is at least the term, the schedule
    contains a row whose month equals the term, and the focus on the term
    resolves to that row. *)
Theorem term_row_exists
    (f : LoanForm) (principal rate : number) (q : Q) (termMonths : Z) :
  loanAmount f = Some principal ->
  interestRatePerMonth f = Some rate ->
  months f = Some (Fin q) ->
  (q == inject_Z termMonths)%Q ->
  valid_term termMonths ->
  exists rows row,
    generateTableData f = Some rows
    /\ termMonths <= Z.of_nat (length rows)
    /\ row ∈ rows
    /\ month row = ofZ termMonths
    /\ getSelectedMonthSummary (Some (Fin q)) rows = summary_row row.
Proof.
  intros Hp Hr Hm Hq Hv.
  destruct (term_row_found _ _ _ _ _ Hp Hr Hm Hq Hv) as [Hgen Hfind].
  pose proof (horizon_ge_term termMonths Hv) as Hh.
  assert (Hv' := Hv). unfold valid_term in Hv'.
  exists (tableRow principal rate <$> seqZ 1 (horizon termMonths)),
         (tableRow principal rate termMonths).
  split; [exact Hgen|].
  split; [rewrite length_fmap, length_seqZ; lia|].
  split; [|split; [reflexivity | exact Hfind]].
  apply list_elem_of_fmap. exists termMonths. split; [reflexivity|].
  apply elem_of_seqZ. lia.
Qed.

Lemma term_row_exists_witness :
  exists rows row,
    generateTableData (sample_form 5) = Some rows
    /\ 5 <= Z.of_nat (length rows)
    /\ row ∈ rows
    /\ month row = ofZ 5
    /\ getSelectedMonthSummary (Some (Fin (inject_Z 5))) rows
       = summary_row row.
Proof.
  apply (term_row_exists (sample_form 5) (ofZ 1000) (ofZ 10)
           (inject_Z 5) 5); try reflexivity.
  unfold valid_term. lia.
Defined.

(** ** Validation of the loan amount *)

Lemma lt_negb_le (a b : number) :
  isNaN a = false -> isNaN b = false -> lt a b = negb (le b a).
Proof.
  destruct a as [p| | |], b as [q| | |]; try discriminate; try reflexivity.
  intros _ _. now rewrite le_Fin.
Qed.

(** C4 (as stated) fails: 0.5 lies strictly between 0 and 1,000,000, and
    the schema rejects it with the [too_small] issue of [.min(1, ...)]. *)
Lemma loanAmount_half_rejected :
  let f := setFormValue f_loanAmount (Some (Fin (1 # 2))) defaultValues in
  (0 < 1 # 2)%Q
  /\ (1 # 2 <= 1000000)%Q
  /\ validate f_loanAmount f
     = [too_small "Loan amount must be greater than 0"]
  /\ range_error (validate f_loanAmount f) = true.
Proof. repeat split; discriminate. Qed.

(** C4 (amended).  For every loan amount that is a number, validation
    reports a range error exactly when the value is below 1 or above
    1,000,000, and reports nothing exactly when the value lies in
    [1, 1,000,000]. *)
Theorem loanAmount_range_error (f : LoanForm) (v : number) :
  loanAmount f = Some v ->
  isNaN v = false ->
  (range_error (validate f_loanAmount f) = true
   <-> lt v (ofZ 1) = true \/ gt v (ofZ 1000000) = true)
  /\ (validate f_loanAmount f = []
      <-> ge v (ofZ 1) = true /\ le v (ofZ 1000000) = true).
Proof.
  intros Hv Nv. unfold validate, safeParse, ge, gt.
  cbn [getValues loanFormSchema min_value max_value min_message max_message].
  rewrite Hv, Nv.
  rewrite (lt_negb_le v (ofZ 1)), (lt_negb_le (ofZ 1000000) v)
    by (exact Nv || reflexivity).
  destruct (le (ofZ 1) v), (le v (ofZ 1000000)); cbn; split; split;
    intuition congruence.
Qed.

Lemma loanAmount_range_error_witness :
  (range_error (validate f_loanAmount (sample_form 1)) = true
   <-> lt (ofZ 1000) (ofZ 1) = true \/ gt (ofZ 1000) (ofZ 1000000) = true)
  /\ (validate f_loanAmount (sample_form 1) = []
      <-> ge (ofZ 1000) (ofZ 1) = true /\ le (ofZ 1000) (ofZ 1000000) = true).
Proof.
  apply (loanAmount_range_error (sample_form 1) (ofZ 1000)); reflexivity.
Defined.

(** The boundary values of the schema: 1 and 1,000,000 pass, 0 and
    1,000,000.01 do not. *)
Example loanAmount_boundaries :
  validate f_loanAmount (setFormValue f_loanAmount (Some (ofZ 1)) defaultValues) = []
  /\ validate f_loanAmount
       (setFormValue f_loanAmount (Some (ofZ 1000000)) defaultValues) = []
  /\ validate f_loanAmount (setFormValue f_loanAmount (Some (ofZ 0)) defaultValues)
     = [too_small "Loan amount must be greater than 0"]
  /\ validate f_loanAmount
       (setFormValue f_loanAmount (Some (Fin (100000001 # 100))) defaultValues)
     = [too_big "Loan amount must be less than 1,000,000"].
Proof. repeat split. Qed.

(** ** Handlers *)

Section HandlerProperties.

Variable parseFloat : string -> number.
Variable parseInt10 : string -> number.
Variable toString : number -> string.

(** *** The months field on blur *)

Lemma isNaN_or_zero (x : option number) : isNaN (or_zero x) = false.
Proof.
  destruct x as [[q| | |]|]; try reflexivity.
  simpl. now destruct (Qeq_bool q 0).
Qed.

(** What the blur handler does on every value but [NaN]: an undefined or
    sub-1 value becomes 1, a value above 360 becomes 360, a value in
    [1, 360] stays. *)
Lemma handleMonthsBlur_repairs (st : State) :
  (months (form st) = None ->
   handleMonthsBlur st = setValue f_months (Some (ofZ 1)) st)
  /\ (forall m, months (form st) = Some m -> lt m (ofZ 1) = true ->
      handleMonthsBlur st = setValue f_months (Some (ofZ 1)) st)
  /\ (forall m, months (form st) = Some m -> gt m (ofZ 360) = true ->
      handleMonthsBlur st = setValue f_months (Some (ofZ 360)) st)
  /\ (forall m, months (form st) = Some m ->
      ge m (ofZ 1) = true -> le m (ofZ 360) = true ->
      handleMonthsBlur st = st).
Proof.
  unfold handleMonthsBlur. cbn [getValues].
  rewrite isNaN_or_zero. cbn [orb].
  repeat split.
  - now intros ->.
  - now intros m -> ->.
  - intros m -> Hgt. rewrite Hgt.
    destruct m as [q| | |]; try discriminate; try reflexivity.
    destruct (lt (Fin q) (ofZ 1)) eqn:E; [|reflexivity].
    exfalso. unfold gt, lt, ofZ in *.
    apply Qlt_bool_iff in E, Hgt.
    pose proof (Qlt_trans _ _ _ Hgt E) as H. discriminate H.
  - intros m -> Hge Hle.
    assert (Nm : isNaN m = false) by (now destruct m).
    unfold ge in Hge. unfold gt.
    rewrite (lt_negb_le m (ofZ 1)), (lt_negb_le (ofZ 360) m)
      by (exact Nm || reflexivity).
    now rewrite Hge, Hle.
Qed.

(** The [isNaN] test of the handler never fires: [currentMonths || 0]
    turns [NaN] into 0 before [isNaN] sees it, and both comparisons of
    [NaN] are false, so the handler would leave a [NaN] months value as it
    is.  No writer of the months field stores [NaN]
    ([rendered_no_NaN] below), so the handler never meets one. *)
Lemma handleMonthsBlur_keeps_NaN (st : State) :
  handleMonthsBlur (setValue f_months (Some NaN) st)
  = setValue f_months (Some NaN) st
  /\ months (form (handleMonthsBlur (setValue f_months (Some NaN) st)))
     = Some NaN.
Proof. split; reflexivity. Qed.

(** *** Saving and loading the custom rate *)

(** The save handler writes every rate that is a number, whatever its
    range, as soon as the store accepts the write. *)
Lemma handleSaveInterestRate_writes (st : State) (rate : number) :
  modalInterestRate st = Some rate ->
  isNaN rate = false ->
  failing (storage st) = false ->
  items (storage (handleSaveInterestRate toString st))
    !! CUSTOM_INTEREST_RATE_KEY = Some (toString rate)
  /\ interestRatePerMonth (form (handleSaveInterestRate toString st))
     = Some rate.
Proof.
  intros Hm Nr Hs.
  unfold handleSaveInterestRate, saveCustomInterestRate, setItem.
  rewrite Hm, Nr, Hs. cbn. split; [|reflexivity].
  apply lookup_insert_eq.
Qed.

(** Nothing is written when the modal rate is undefined or [NaN]. *)
Lemma handleSaveInterestRate_refuses (st : State) :
  (modalInterestRate st = None \/ modalInterestRate st = Some NaN) ->
  storage (handleSaveInterestRate toString st) = storage st
  /\ form (handleSaveInterestRate toString st) = form st.
Proof.
  unfold handleSaveInterestRate. intros [-> | ->]; split; reflexivity.
Qed.

(** The load path checks the range: a stored text that parses to a number
    outside [0.1, 100] is removed from the store and the rate is reset
    to 10. *)
Lemma loadCustomInterestRate_discards (st : State) (stored : string) :
  failing (storage st) = false ->
  items (storage st) !! CUSTOM_INTEREST_RATE_KEY = Some stored ->
  (lt (parseFloat stored) (Fin (1 # 10)) = true
   \/ gt (parseFloat stored) (ofZ 100) = true) ->
  items (storage (loadCustomInterestRate parseFloat st))
    !! CUSTOM_INTEREST_RATE_KEY = None
  /\ interestRatePerMonth (form (loadCustomInterestRate parseFloat st))
     = Some (ofZ 10).
Proof.
  intros Hs Hk Hout.
  unfold loadCustomInterestRate, getItem, removeItem. rewrite Hs, Hk.
  assert (E : negb (isNaN (parseFloat stored))
              && ge (parseFloat stored) (Fin (1 # 10))
              && le (parseFloat stored) (ofZ 100) = false).
  { destruct (isNaN (parseFloat stored)) eqn:N; [reflexivity|].
    unfold ge. unfold gt in Hout.
    rewrite (lt_negb_le _ (Fin (1 # 10))), (lt_negb_le (ofZ 100)) in Hout
      by (exact N || reflexivity).
    destruct Hout as [H|H]; apply negb_true_iff in H; rewrite H;
      cbn; now rewrite ?andb_false_r. }
  rewrite E. cbn. split; [|reflexivity]. apply lookup_delete_eq.
Qed.

(** C3: the save path has no range check.  With 500 typed in the modal
    (above the schema's maximum of 100) and a working store, the save
    handler writes the text of 500 under the rate key and sets the form's
    rate to 500. *)
Theorem handleSaveInterestRate_out_of_range :
  let st := setModalInterestRate (Some (ofZ 500))
              (initialState working_storage) in
  gt (ofZ 500) (ofZ 100) = true
  /\ items (storage (handleSaveInterestRate toString st))
       !! CUSTOM_INTEREST_RATE_KEY = Some (toString (ofZ 500))
  /\ interestRatePerMonth (form (handleSaveInterestRate toString st))
     = Some (ofZ 500).
Proof.
  intros st. split; [reflexivity|].
  apply handleSaveInterestRate_writes; reflexivity.
Qed.

(** *** Absent inputs *)

Lemma generateTableData_absent (f : LoanForm) :
  loanAmount f = None \/ interestRatePerMonth f = None \/ months f = None ->
  generateTableData f = Some [].
Proof.
  unfold generateTableData. intros [H|[H|H]]; rewrite H.
  - reflexivity.
  - now destruct (loanAmount f).
  - now destruct (loanAmount f), (interestRatePerMonth f).
Qed.

(** C8.  When the principal, the rate or the term is undefined, the
    generator returns the empty table; this is the case after the loan
    amount or the months text was changed to a text that does not parse. *)
Theorem absent_input_empty_table (f : LoanForm) (st : State) (text : string) :
  (loanAmount f = None \/ interestRatePerMonth f = None \/ months f = None ->
   generateTableData f = Some [])
  /\ (isNaN (parseFloat text) = true ->
      loanAmount (form (handleLoanAmountChange parseFloat text st)) = None
      /\ generateTableData (form (handleLoanAmountChange parseFloat text st))
         = Some [])
  /\ (isNaN (parseInt10 text) = true ->
      months (form (handleMonthsTextChange parseInt10 text st)) = None
      /\ generateTableData (form (handleMonthsTextChange parseInt10 text st))
         = Some []).
Proof.
  split; [apply generateTableData_absent|]. split; intros H.
  - unfold handleLoanAmountChange. rewrite H. split; [reflexivity|].
    apply generateTableData_absent. now left.
  - unfold handleMonthsTextChange. rewrite H. split; [reflexivity|].
    apply generateTableData_absent. now right; right.
Qed.

End HandlerProperties.

Lemma absent_input_empty_table_witness :
  generateTableData defaultValues = Some []
  /\ generateTableData
       (form (handleLoanAmountChange (fun _ => NaN) "abc"
                (with_form (sample_form 5) (initialState working_storage))))
     = Some []
  /\ generateTableData
       (form (handleMonthsTextChange (fun _ => NaN) "abc"
                (with_form (sample_form 5) (initialState working_storage))))
     = Some [].
Proof.
  destruct (absent_input_empty_table (fun _ => NaN) (fun _ => NaN)
              defaultValues
              (with_form (sample_form 5) (initialState working_storage))
              "abc") as (H1 & H2 & H3).
  split; [apply H1; left; reflexivity|].
  split; [apply H2; reflexivity | apply H3; reflexivity].
Defined.

(** * Further properties of the component *)

(** ** The table *)

Lemma shown_multiple_of_12 (months : number) : shown months mod 12 = 0.
Proof.
  destruct months as [q| | |]; try reflexivity.
  unfold shown. set (c := Qceiling (q / 12)).
  destruct (Z.min_spec (c * 12) 360) as [[_ ->]|[_ ->]].
  - apply Z.mod_mul. lia.
  - reflexivity.
Qed.

(** The table is empty exactly when an input is undefined or the months
    do not pass the [months >= 1] guard; otherwise it has a whole number
    of years of rows, between 12 and 360. *)
Theorem table_empty_or_whole_years (f : LoanForm) :
  exists rows,
    generateTableData f = Some rows
    /\ (rows = [] <->
        loanAmount f = None \/ interestRatePerMonth f = None
        \/ months f = None
        \/ exists m, months f = Some m /\ ge m (ofZ 1) = false)
    /\ (rows <> [] ->
        (12 <= length rows <= 360)%nat /\ (length rows mod 12 = 0)%nat).
Proof.
  destruct (generateTableData_shape f)
    as [H|(p & r & m & Hp & Hr & Hm & Hge & H)].
  - exists []. split; [exact H|]. split; [|congruence].
    split; [intros _|reflexivity].
    destruct (loanAmount f) as [p|] eqn:Hp; [|now left].
    destruct (interestRatePerMonth f) as [r|] eqn:Hr; [|now right; left].
    destruct (months f) as [m|] eqn:Hm; [|now right; right; left].
    right; right; right. exists m. split; [reflexivity|].
    destruct (ge m (ofZ 1)) eqn:Hge; [|reflexivity].
    exfalso.
    rewrite (generateTableData_present f p r m Hp Hr Hm Hge) in H.
    apply (inj Some), (f_equal length) in H.
    rewrite length_fmap, length_seqZ in H. cbn in H.
    pose proof (shown_bounds m Hge). lia.
  - pose proof (shown_bounds m Hge) as Hb.
    pose proof (shown_multiple_of_12 m) as Hmod.
    assert (Hlen : length (tableRow p r <$> seqZ 1 (shown m))
                   = Z.to_nat (shown m))
      by now rewrite length_fmap, length_seqZ.
    eexists. split; [exact H|]. split.
    + split.
      * intros E. apply (f_equal length) in E. rewrite Hlen in E.
        cbn in E. lia.
      * intros [E|[E|[E|(m' & E & Hge')]]]; try congruence.
    + intros _. rewrite Hlen. split; [lia|].
      apply Nat2Z.inj. rewrite Nat2Z.inj_mod, Z2Nat.id by lia.
      exact Hmod.
Qed.

(** Changing the months alone never changes a row: of the tables of two
    forms with the same loan amount and rate, one is a prefix of the
    other. *)
Theorem tables_are_prefixes (f1 f2 : LoanForm) :
  loanAmount f1 = loanAmount f2 ->
  interestRatePerMonth f1 = interestRatePerMonth f2 ->
  exists rows1 rows2,
    generateTableData f1 = Some rows1
    /\ generateTableData f2 = Some rows2
    /\ (rows1 `prefix_of` rows2 \/ rows2 `prefix_of` rows1).
Proof.
  intros Ep Er.
  destruct (generateTableData_shape f1)
    as [H1|(p1 & r1 & m1 & Hp1 & Hr1 & _ & Hge1 & H1)].
  { destruct (generateTableData_returns f2) as [rows2 H2].
    exists [], rows2. repeat split; try assumption. left. apply prefix_nil. }
  destruct (generateTableData_shape f2)
    as [H2|(p2 & r2 & m2 & Hp2 & Hr2 & _ & Hge2 & H2)].
  { eexists _, []. repeat split; try eassumption. right. apply prefix_nil. }
  assert (p2 = p1) as -> by congruence.
  assert (r2 = r1) as -> by congruence.
  pose proof (shown_bounds m1 Hge1). pose proof (shown_bounds m2 Hge2).
  eexists _, _. split; [exact H1|]. split; [exact H2|].
  destruct (Z.le_ge_cases (shown m1) (shown m2)) as [Hle|Hle].
  - left. replace (shown m2) with (shown m1 + (shown m2 - shown m1)) by lia.
    rewrite seqZ_app, fmap_app by lia. now apply prefix_app_r.
  - right. replace (shown m1) with (shown m2 + (shown m1 - shown m2)) by lia.
    rewrite seqZ_app, fmap_app by lia. now apply prefix_app_r.
Qed.

Lemma tables_are_prefixes_witness :
  exists rows1 rows2,
    generateTableData (sample_form 5) = Some rows1
    /\ generateTableData (sample_form 30) = Some rows2
    /\ (rows1 `prefix_of` rows2 \/ rows2 `prefix_of` rows1).
Proof.
  apply (tables_are_prefixes (sample_form 5) (sample_form 30)); reflexivity.
Defined.

(** The [isNaN] guard of [calculateInterest]: when the loan amount or the
    rate is [NaN], every row carries the interest 0 instead of [NaN], and
    its total is the loan amount plus 0. *)
Theorem nan_input_zero_interest (f : LoanForm) (p r : number) :
  loanAmount f = Some p ->
  interestRatePerMonth f = Some r ->
  isNaN p = true \/ isNaN r = true ->
  exists rows,
    generateTableData f = Some rows
    /\ forall row, row ∈ rows ->
         interestAmount row = ofZ 0
         /\ totalAmount row = add p (ofZ 0).
Proof.
  intros Hp Hr Hnan.
  destruct (generateTableData_shape f)
    as [H|(p' & r' & m & Hp' & Hr' & _ & _ & H)].
  - exists []. split; [exact H|]. intros row Hrow. inversion Hrow.
  - rewrite Hp in Hp'. rewrite Hr in Hr'.
    injection Hp' as <-. injection Hr' as <-.
    eexists. split; [exact H|]. intros row Hrow.
    apply elem_of_table in Hrow as (i & Hi & ->).
    unfold tableRow, calculateInterest.
    cbn [interestAmount totalAmount].
    destruct Hnan as [-> | ->]; rewrite ?orb_true_r; split; reflexivity.
Qed.

Lemma nan_input_zero_interest_witness :
  exists rows,
    generateTableData
      (setFormValue f_interestRatePerMonth (Some NaN) (sample_form 1))
      = Some rows
    /\ forall row, row ∈ rows ->
         interestAmount row = ofZ 0
         /\ totalAmount row = add (ofZ 1000) (ofZ 0).
Proof.
  apply (nan_input_zero_interest
           (setFormValue f_interestRatePerMonth (Some NaN) (sample_form 1))
           (ofZ 1000) NaN); try reflexivity.
  right. reflexivity.
Defined.

(** ** Order facts on numbers *)

Lemma lt_trans (a b c : number) :
  lt a b = true -> lt b c = true -> lt a c = true.
Proof.
  destruct a as [p| | |], b as [q| | |], c as [s| | |];
    try discriminate; try reflexivity.
  cbn. rewrite !Qlt_bool_iff. apply Qlt_trans.
Qed.

Lemma le_refl (a : number) : isNaN a = false -> le a a = true.
Proof.
  destruct a as [p| | |]; try discriminate; try reflexivity.
  intros _. rewrite le_Fin. apply Qle_bool_iff, Qle_refl.
Qed.

Lemma lt_le (a b : number) : lt a b = true -> le a b = true.
Proof. unfold le. now intros ->. Qed.

Lemma isNaN_min (a b : number) :
  isNaN a = false -> isNaN b = false -> isNaN (JS.min a b) = false.
Proof.
  intros Na Nb. unfold JS.min. rewrite Na, Nb. cbn.
  now destruct (lt b a).
Qed.

Lemma isNaN_max (a b : number) :
  isNaN a = false -> isNaN b = false -> isNaN (JS.max a b) = false.
Proof.
  intros Na Nb. unfold JS.max. rewrite Na, Nb. cbn.
  now destruct (lt a b).
Qed.

Lemma min_le_l (a b : number) :
  isNaN a = false -> isNaN b = false -> le (JS.min a b) a = true.
Proof.
  intros Na Nb. unfold JS.min. rewrite Na, Nb. cbn.
  destruct (lt b a) eqn:E; [now apply lt_le | now apply le_refl].
Qed.

Lemma max_ge_l (a b : number) :
  isNaN a = false -> isNaN b = false -> ge (JS.max a b) a = true.
Proof.
  intros Na Nb. unfold ge, JS.max. rewrite Na, Nb. cbn.
  destruct (lt a b) eqn:E; [now apply lt_le | now apply le_refl].
Qed.

(** ** The schema on every field *)

Lemma schema_bounds_ordered (name : FieldName) (v : number) :
  lt v (min_value (loanFormSchema name)) = true ->
  gt v (max_value (loanFormSchema name)) = false.
Proof.
  intros Hlo. unfold gt.
  destruct (lt (max_value (loanFormSchema name)) v) eqn:Hhi; [|reflexivity].
  pose proof (lt_trans _ _ _ Hhi Hlo) as H.
  destruct name; discriminate H.
Qed.

Lemma validate_issues (name : FieldName) (f : LoanForm) :
  (validate name f = [] <->
   getValues name f = None
   \/ exists v, getValues name f = Some v /\ within_bounds name v = true)
  /\ (length (validate name f) <= 1)%nat
  /\ (getValues name f = Some NaN ->
      validate name f = [invalid_type "Please enter a valid number"]).
Proof.
  unfold validate, safeParse, within_bounds.
  destruct (getValues name f) as [v|].
  2:{ split; [|split].
      - split; [now left | reflexivity].
      - cbn. lia.
      - discriminate. }
  destruct (isNaN v) eqn:Nv.
  { destruct v; try discriminate Nv. split; [|split].
    - split; [discriminate|].
      intros [H|(w & H & Hb)]; [discriminate|].
      injection H as <-. now destruct name.
    - cbn. lia.
    - intros _. now destruct name. }
  assert (Nmin : isNaN (min_value (loanFormSchema name)) = false)
    by now destruct name.
  assert (Nmax : isNaN (max_value (loanFormSchema name)) = false)
    by now destruct name.
  pose proof (schema_bounds_ordered name v) as Hord.
  unfold ge. unfold gt in *.
  rewrite (lt_negb_le v _ Nv Nmin), (lt_negb_le _ v Nmax Nv) in *.
  destruct (le (min_value (loanFormSchema name)) v) eqn:Hlo,
           (le v (max_value (loanFormSchema name))) eqn:Hhi;
    cbn [negb andb app length] in *.
  - split; [|split].
    + split; [|reflexivity]. intros _. right. exists v.
      now rewrite Hlo, Hhi.
    + lia.
    + intros H. injection H as ->. discriminate Nv.
  - split; [|split].
    + split; [discriminate|].
      intros [H|(w & H & Hb)]; [discriminate|].
      injection H as <-. rewrite Hlo, Hhi in Hb. discriminate Hb.
    + lia.
    + intros H. injection H as ->. discriminate Nv.
  - split; [|split].
    + split; [discriminate|].
      intros [H|(w & H & Hb)]; [discriminate|].
      injection H as <-. rewrite Hlo, Hhi in Hb. discriminate Hb.
    + lia.
    + intros H. injection H as ->. discriminate Nv.
  - specialize (Hord eq_refl). discriminate Hord.
Qed.

(** For each of the three fields: the schema reports nothing exactly when
    the value is undefined or within the field's inclusive bounds; it
    never reports more than one issue; and [NaN] gets the type error. *)
Theorem validate_passes_iff (name : FieldName) (f : LoanForm) :
  (validate name f = [] <->
   getValues name f = None
   \/ exists v, getValues name f = Some v /\ within_bounds name v = true)
  /\ (length (validate name f) <= 1)%nat
  /\ (getValues name f = Some NaN ->
      validate name f = [invalid_type "Please enter a valid number"]).
Proof. apply validate_issues. Qed.

(** ** The months field: blur and the two buttons *)

Lemma within_bounds_months_1 : within_bounds f_months (ofZ 1) = true.
Proof. reflexivity. Qed.

Lemma within_bounds_months_360 : within_bounds f_months (ofZ 360) = true.
Proof. reflexivity. Qed.

Lemma validate_months_set (v : number) (f : LoanForm) :
  within_bounds f_months v = true ->
  validate f_months (setFormValue f_months (Some v) f) = [].
Proof.
  intros Hb. apply validate_issues. right. now exists v.
Qed.

Lemma handleMonthsBlur_valid (st : State) :
  months (form st) <> Some NaN ->
  validate f_months (form (handleMonthsBlur st)) = [].
Proof.
  intros Hnan.
  destruct (handleMonthsBlur_repairs st) as (Hnone & Hlow & Hhigh & Hin).
  destruct (months (form st)) as [m|] eqn:Hm.
  2:{ rewrite Hnone by reflexivity.
      apply validate_months_set, within_bounds_months_1. }
  assert (Nm : isNaN m = false).
  { destruct m; try reflexivity. now contradict Hnan. }
  destruct (lt m (ofZ 1)) eqn:Hlt.
  { rewrite (Hlow m) by auto.
    apply validate_months_set, within_bounds_months_1. }
  destruct (gt m (ofZ 360)) eqn:Hgt.
  { rewrite (Hhigh m) by auto.
    apply validate_months_set, within_bounds_months_360. }
  assert (Hge : ge m (ofZ 1) = true).
  { unfold ge. rewrite lt_negb_le in Hlt by (exact Nm || reflexivity).
    now apply negb_false_iff in Hlt. }
  assert (Hle : le m (ofZ 360) = true).
  { unfold gt in Hgt. rewrite lt_negb_le in Hgt by (exact Nm || reflexivity).
    now apply negb_false_iff in Hgt. }
  rewrite (Hin m) by auto.
  apply validate_issues. right. exists m. split; [exact Hm|].
  unfold within_bounds. cbn [loanFormSchema min_value max_value].
  now rewrite Hge, Hle.
Qed.

(** After a blur the months field passes the schema, whatever it held
    before, unless it held [NaN]. *)
Theorem blur_makes_months_valid (st : State) :
  months (form st) <> Some NaN ->
  validate f_months (form (handleMonthsBlur st)) = [].
Proof. apply handleMonthsBlur_valid. Qed.

Lemma blur_makes_months_valid_witness :
  validate f_months
    (form (handleMonthsBlur
             (with_form (sample_form 400) (initialState working_storage))))
  = [].
Proof.
  apply (blur_makes_months_valid
           (with_form (sample_form 400) (initialState working_storage))).
  discriminate.
Defined.

(** A second blur changes nothing. *)
Theorem handleMonthsBlur_idempotent (st : State) :
  handleMonthsBlur (handleMonthsBlur st) = handleMonthsBlur st.
Proof.
  destruct (handleMonthsBlur_repairs st) as (Hnone & Hlow & Hhigh & Hin).
  destruct (months (form st)) as [m|] eqn:Hm.
  2:{ now rewrite Hnone. }
  destruct (isNaN m) eqn:Nm.
  { destruct m; try discriminate Nm.
    assert (E : handleMonthsBlur st = st).
    { unfold handleMonthsBlur. cbn [getValues]. now rewrite Hm. }
    now rewrite !E. }
  destruct (lt m (ofZ 1)) eqn:Hlt.
  { now rewrite (Hlow m) by auto. }
  destruct (gt m (ofZ 360)) eqn:Hgt.
  { now rewrite (Hhigh m) by auto. }
  assert (E : handleMonthsBlur st = st).
  { apply (Hin m); [reflexivity| |].
    - unfold ge. rewrite lt_negb_le in Hlt by (exact Nm || reflexivity).
      now apply negb_false_iff in Hlt.
    - unfold gt in Hgt.
      rewrite lt_negb_le in Hgt by (exact Nm || reflexivity).
      now apply negb_false_iff in Hgt. }
  now rewrite !E.
Qed.

Lemma isNaN_add_one (a : number) :
  isNaN a = false -> isNaN (add a (ofZ 1)) = false.
Proof. now destruct a. Qed.

Lemma isNaN_sub_one (a : number) :
  isNaN a = false -> isNaN (sub a (ofZ 1)) = false.
Proof. now destruct a. Qed.

(** Whatever the months field holds (undefined and [NaN] included), the
    minus button leaves a number that is at least 1 and the plus button a
    number that is at most 360. *)
Theorem months_buttons_bounds (st : State) :
  (exists v, months (form (handleMonthsDecrement st)) = Some v
             /\ isNaN v = false /\ ge v (ofZ 1) = true)
  /\ (exists v, months (form (handleMonthsIncrement st)) = Some v
                /\ isNaN v = false /\ le v (ofZ 360) = true).
Proof.
  pose proof (isNaN_or_zero (months (form st))) as N0.
  split; eexists; (split; [reflexivity|]).
  - split.
    + apply isNaN_max; [reflexivity | now apply isNaN_sub_one].
    + apply max_ge_l; [reflexivity | now apply isNaN_sub_one].
  - split.
    + apply isNaN_min; [reflexivity | now apply isNaN_add_one].
    + apply min_le_l; [reflexivity | now apply isNaN_add_one].
Qed.

Lemma or_zero_int (v : number) (m : Z) :
  is_int v m -> is_int (or_zero (Some v)) m.
Proof.
  intros (q & -> & Hq). cbn.
  destruct (Qeq_bool q 0) eqn:E.
  - apply Qeq_bool_iff in E. exists 0%Q. split; [reflexivity|].
    now rewrite <- E.
  - now exists q.
Qed.

Lemma increment_int (x : number) (m : Z) :
  is_int x m ->
  is_int (JS.min (ofZ 360) (add x (ofZ 1))) (Z.min 360 (m + 1)).
Proof.
  intros (q & -> & Hq).
  change (JS.min (ofZ 360) (add (Fin q) (ofZ 1)))
    with (if Qlt_bool (q + inject_Z 1) (inject_Z 360)
          then Fin (q + inject_Z 1) else ofZ 360).
  assert (E : Qlt_bool (q + inject_Z 1) (inject_Z 360) = (m + 1 <? 360)).
  { apply eq_true_iff_eq.
    rewrite Qlt_bool_iff, Hq, <- inject_Z_plus, <- Zlt_Qlt.
    symmetry. apply Z.ltb_lt. }
  rewrite E. destruct (m + 1 <? 360) eqn:Hlt.
  - apply Z.ltb_lt in Hlt. rewrite Z.min_r by lia.
    eexists. split; [reflexivity|]. now rewrite Hq, <- inject_Z_plus.
  - apply Z.ltb_ge in Hlt. rewrite Z.min_l by lia.
    eexists. split; reflexivity.
Qed.

Lemma decrement_int (x : number) (m : Z) :
  is_int x m ->
  is_int (JS.max (ofZ 1) (sub x (ofZ 1))) (Z.max 1 (m - 1)).
Proof.
  intros (q & -> & Hq).
  change (JS.max (ofZ 1) (sub (Fin q) (ofZ 1)))
    with (if Qlt_bool (inject_Z 1) (q + - inject_Z 1)
          then Fin (q + - inject_Z 1) else ofZ 1).
  assert (Hq' : (q + - inject_Z 1 == inject_Z (m - 1))%Q).
  { rewrite Hq. unfold Z.sub. rewrite inject_Z_plus, inject_Z_opp.
    reflexivity. }
  assert (E : Qlt_bool (inject_Z 1) (q + - inject_Z 1) = (1 <? m - 1)).
  { apply eq_true_iff_eq.
    rewrite Qlt_bool_iff, Hq', <- Zlt_Qlt. symmetry. apply Z.ltb_lt. }
  rewrite E. destruct (1 <? m - 1) eqn:Hlt.
  - apply Z.ltb_lt in Hlt. rewrite Z.max_r by lia.
    eexists. split; [reflexivity | exact Hq'].
  - apply Z.ltb_ge in Hlt. rewrite Z.max_l by lia.
    eexists. split; reflexivity.
Qed.

(** On an integer months value [m] that doubles hold exactly together
    with its neighbours ([-2^53 < m < 2^53]) the plus button stores
    [min(360, m + 1)] and the minus button [max(1, m - 1)]; on an
    undefined months field both store 1. *)
Theorem months_buttons_on_integers (st : State) :
  (forall v m, months (form st) = Some v -> is_int v m ->
     - 9007199254740992 < m < 9007199254740992 ->
     (exists v', months (form (handleMonthsIncrement st)) = Some v'
                 /\ is_int v' (Z.min 360 (m + 1)))
     /\ (exists v', months (form (handleMonthsDecrement st)) = Some v'
                    /\ is_int v' (Z.max 1 (m - 1))))
  /\ (months (form st) = None ->
      (exists v', months (form (handleMonthsIncrement st)) = Some v'
                  /\ is_int v' 1)
      /\ months (form (handleMonthsDecrement st)) = Some (ofZ 1)).
Proof.
  split.
  - intros v m Hm Hint _. apply or_zero_int in Hint.
    split; eexists; (split; [reflexivity|]);
      cbn [handleMonthsIncrement handleMonthsDecrement];
      rewrite Hm.
    + now apply increment_int.
    + now apply decrement_int.
  - intros Hm. split.
    + eexists. split; [reflexivity|]. rewrite Hm.
      apply (increment_int (ofZ 0) 0). now exists (inject_Z 0).
    + unfold handleMonthsDecrement. now rewrite Hm.
Qed.

Lemma months_buttons_on_integers_witness :
  (exists v', months (form (handleMonthsIncrement
                 (with_form (sample_form 360) (initialState working_storage))))
              = Some v' /\ is_int v' (Z.min 360 (360 + 1)))
  /\ (exists v', months (form (handleMonthsDecrement
                    (with_form (sample_form 360) (initialState working_storage))))
                 = Some v' /\ is_int v' (Z.max 1 (360 - 1))).
Proof.
  apply (proj1 (months_buttons_on_integers
                  (with_form (sample_form 360) (initialState working_storage)))
           (ofZ 360) 360); [reflexivity | | lia].
  exists (inject_Z 360). split; reflexivity.
Defined.

(** Between the bounds the two buttons undo each other: plus then minus
    on an integer in [1, 359], and minus then plus on an integer in
    [2, 360], give the integer back. *)
Theorem months_buttons_round_trip (st : State) (v : number) (m : Z) :
  months (form st) = Some v ->
  is_int v m ->
  (1 <= m <= 359 ->
   exists v', months (form (handleMonthsDecrement
                              (handleMonthsIncrement st))) = Some v'
              /\ is_int v' m)
  /\ (2 <= m <= 360 ->
      exists v', months (form (handleMonthsIncrement
                                 (handleMonthsDecrement st))) = Some v'
                 /\ is_int v' m).
Proof.
  intros Hm Hint. apply or_zero_int in Hint. split; intros Hr.
  - eexists. split; [reflexivity|].
    cbn [handleMonthsIncrement handleMonthsDecrement setValue with_form
         form setFormValue months].
    rewrite Hm.
    pose proof (decrement_int _ _ (or_zero_int _ _ (increment_int _ _ Hint)))
      as H.
    now replace (Z.max 1 (Z.min 360 (m + 1) - 1)) with m in H by lia.
  - eexists. split; [reflexivity|].
    cbn [handleMonthsIncrement handleMonthsDecrement setValue with_form
         form setFormValue months].
    rewrite Hm.
    pose proof (increment_int _ _ (or_zero_int _ _ (decrement_int _ _ Hint)))
      as H.
    now replace (Z.min 360 (Z.max 1 (m - 1) + 1)) with m in H by lia.
Qed.

Lemma months_buttons_round_trip_witness :
  exists v', months (form (handleMonthsDecrement
               (handleMonthsIncrement
                  (with_form (sample_form 5) (initialState working_storage)))))
             = Some v'
             /\ is_int v' 5.
Proof.
  assert (Hint : is_int (ofZ 5) 5)
    by (exists (inject_Z 5); split; reflexivity).
  apply (proj1 (months_buttons_round_trip
                  (with_form (sample_form 5) (initialState working_storage))
                  (ofZ 5) 5 eq_refl Hint)).
  lia.
Defined.

(** ** The stored rate *)

Section StoredRate.

Variable parseFloat : string -> number.
Variable toString : number -> string.

Lemma load_check_within_bounds (v : number) :
  negb (isNaN v) && ge v (Fin (1 # 10)) && le v (ofZ 100)
  = negb (isNaN v) && within_bounds f_interestRatePerMonth v.
Proof. unfold within_bounds. cbn. now rewrite andb_assoc. Qed.

Lemma validate_rate_set (v : number) (f : LoanForm) :
  within_bounds f_interestRatePerMonth v = true ->
  validate f_interestRatePerMonth
    (setFormValue f_interestRatePerMonth (Some v) f) = [].
Proof.
  intros Hb. apply validate_issues. right. now exists v.
Qed.

(** Loading never writes: every key but the rate key keeps its value, the
    rate key keeps its value or is removed, and with a working store and
    no stored rate the state does not change at all. *)
Theorem load_only_deletes (st : State) :
  (forall k, k <> CUSTOM_INTEREST_RATE_KEY ->
     items (storage (loadCustomInterestRate parseFloat st)) !! k
     = items (storage st) !! k)
  /\ (items (storage (loadCustomInterestRate parseFloat st))
        !! CUSTOM_INTEREST_RATE_KEY
      = items (storage st) !! CUSTOM_INTEREST_RATE_KEY
      \/ items (storage (loadCustomInterestRate parseFloat st))
           !! CUSTOM_INTEREST_RATE_KEY = None)
  /\ (failing (storage st) = false ->
      items (storage st) !! CUSTOM_INTEREST_RATE_KEY = None ->
      loadCustomInterestRate parseFloat st = st).
Proof.
  unfold loadCustomInterestRate, getItem, removeItem.
  destruct (failing (storage st)) eqn:Hf.
  { repeat split; auto. discriminate. }
  destruct (items (storage st) !! CUSTOM_INTEREST_RATE_KEY) as [stored|] eqn:Hk.
  2:{ repeat split; auto. }
  destruct (negb (isNaN (parseFloat stored))
            && ge (parseFloat stored) (Fin (1 # 10))
            && le (parseFloat stored) (ofZ 100)).
  - repeat split; auto. discriminate.
  - cbn. split; [|split].
    + intros k Hne. now apply lookup_delete_ne.
    + right. apply lookup_delete_eq.
    + discriminate.
Qed.

(** Loading keeps the form's rate within the schema: from a state whose
    rate passes the schema, whatever text the store holds and however it
    parses, the rate after the load passes the schema too; the loan amount
    and the months are not touched. *)
Theorem load_keeps_rate_valid (st : State) :
  validate f_interestRatePerMonth (form st) = [] ->
  validate f_interestRatePerMonth
    (form (loadCustomInterestRate parseFloat st)) = []
  /\ loanAmount (form (loadCustomInterestRate parseFloat st))
     = loanAmount (form st)
  /\ months (form (loadCustomInterestRate parseFloat st)) = months (form st).
Proof.
  intros Hv. unfold loadCustomInterestRate, getItem, removeItem.
  destruct (failing (storage st)); [now repeat split|].
  destruct (items (storage st) !! CUSTOM_INTEREST_RATE_KEY) as [stored|];
    [|now repeat split].
  rewrite load_check_within_bounds.
  destruct (isNaN (parseFloat stored)); cbn [negb andb].
  { now repeat split. }
  destruct (within_bounds f_interestRatePerMonth (parseFloat stored)) eqn:Hb.
  - split; [|now split]. now apply validate_rate_set.
  - now repeat split.
Qed.

(** The form's rate changes only after the store accepted the write:
    either the save leaves the form and the store as they were, or the
    modal held a number, its text is now under the rate key, the form's
    rate is that number and the modal is closed.  No other key is ever
    written. *)
Theorem save_updates_form_after_write (st : State) :
  ((form (handleSaveInterestRate toString st) = form st
    /\ storage (handleSaveInterestRate toString st) = storage st)
   \/ exists rate,
        modalInterestRate st = Some rate
        /\ isNaN rate = false
        /\ items (storage (handleSaveInterestRate toString st))
             !! CUSTOM_INTEREST_RATE_KEY = Some (toString rate)
        /\ form (handleSaveInterestRate toString st)
           = setFormValue f_interestRatePerMonth (Some rate) (form st)
        /\ showInterestRateModal (handleSaveInterestRate toString st) = false)
  /\ (forall k, k <> CUSTOM_INTEREST_RATE_KEY ->
        items (storage (handleSaveInterestRate toString st)) !! k
        = items (storage st) !! k).
Proof.
  unfold handleSaveInterestRate, saveCustomInterestRate, setItem.
  destruct (modalInterestRate st) as [rate|]; [|split; auto].
  destruct (isNaN rate) eqn:Nr; cbn [negb]; [split; auto|].
  destruct (failing (storage st)); [split; auto|].
  cbn. split.
  - right. exists rate. repeat split; [exact Nr | apply lookup_insert_eq].
  - intros k Hne. now apply lookup_insert_ne.
Qed.

(** Saving and then loading, on a working store and with a parser that
    reads back what [toString] wrote: a rate within [0.1, 100] comes back
    and stays stored; any other number is removed from the store and the
    rate falls back to 10. *)
Theorem save_then_load (st : State) (rate : number) :
  modalInterestRate st = Some rate ->
  isNaN rate = false ->
  failing (storage st) = false ->
  parseFloat (toString rate) = rate ->
  let st' := loadCustomInterestRate parseFloat
               (handleSaveInterestRate toString st) in
  if within_bounds f_interestRatePerMonth rate
  then interestRatePerMonth (form st') = Some rate
       /\ items (storage st') !! CUSTOM_INTEREST_RATE_KEY
          = Some (toString rate)
  else interestRatePerMonth (form st') = Some (ofZ 10)
       /\ items (storage st') !! CUSTOM_INTEREST_RATE_KEY = None.
Proof.
  intros Hm Nr Hf Hrt st'. subst st'.
  unfold handleSaveInterestRate, saveCustomInterestRate, setItem.
  rewrite Hm, Nr, Hf. cbn [negb].
  unfold loadCustomInterestRate, getItem, removeItem.
  cbn [storage setShowInterestRateModal setValue with_form with_storage
       failing items].
  rewrite lookup_insert_eq, Hrt, load_check_within_bounds, Nr.
  cbn [negb andb].
  destruct (within_bounds f_interestRatePerMonth rate); cbn.
  - split; [reflexivity | apply lookup_insert_eq].
  - split; [reflexivity | apply lookup_delete_eq].
Qed.

End StoredRate.

Lemma load_keeps_rate_valid_witness :
  validate f_interestRatePerMonth
    (form (loadCustomInterestRate (fun _ => ofZ 500)
             (initialState
                {| items := {[ CUSTOM_INTEREST_RATE_KEY := "500" ]};
                   failing := false |}))) = [].
Proof.
  apply (load_keeps_rate_valid (fun _ => ofZ 500)
           (initialState
              {| items := {[ CUSTOM_INTEREST_RATE_KEY := "500" ]};
                 failing := false |})).
  reflexivity.
Defined.

Lemma save_then_load_witness :
  interestRatePerMonth
    (form (loadCustomInterestRate (fun _ => ofZ 500)
             (handleSaveInterestRate (fun _ => "500")
                (setModalInterestRate (Some (ofZ 500))
                   (initialState working_storage)))))
  = Some (ofZ 10)
  /\ items (storage (loadCustomInterestRate (fun _ => ofZ 500)
             (handleSaveInterestRate (fun _ => "500")
                (setModalInterestRate (Some (ofZ 500))
                   (initialState working_storage)))))
       !! CUSTOM_INTEREST_RATE_KEY = None.
Proof.
  apply (save_then_load (fun _ => ofZ 500) (fun _ => "500")
           (setModalInterestRate (Some (ofZ 500))
              (initialState working_storage)) (ofZ 500));
    reflexivity.
Defined.

(** ** The title of the table *)

(** With loan amount and rate present and an integer term in [1, 360] the
    title shows the display horizon, not the term; with an empty table it
    shows [months || 0]. *)
Theorem title_shows_horizon (st : State) :
  (forall p r v m,
     loanAmount (form st) = Some p ->
     interestRatePerMonth (form st) = Some r ->
     months (form st) = Some v ->
     is_int v m -> valid_term m ->
     displayMonthsForTitle st = Some (ofZ (horizon m)))
  /\ (generateTableData (form st) = Some [] ->
      displayMonthsForTitle st = Some (or_zero (months (form st)))).
Proof.
  unfold displayMonthsForTitle. split.
  - intros p r v m Hp Hr Hm (q & -> & Hq) Hv.
    destruct (term_row_found _ _ _ _ _ Hp Hr Hm Hq Hv) as [-> _].
    pose proof (horizon_ge_term m Hv). unfold valid_term in Hv.
    now rewrite last_table by lia.
  - now intros ->.
Qed.

Lemma title_shows_horizon_witness :
  displayMonthsForTitle
    (with_form (sample_form 13) (initialState working_storage))
  = Some (ofZ (horizon 13)).
Proof.
  apply (proj1 (title_shows_horizon
                  (with_form (sample_form 13) (initialState working_storage)))
           (ofZ 1000) (ofZ 10) (ofZ 13) 13); try reflexivity.
  - exists (inject_Z 13). split; reflexivity.
  - unfold valid_term. lia.
Defined.

(** ** The component as a transition system *)

Lemma same_value_refl (a : number) : same_value a a = true.
Proof.
  destruct a; try reflexivity. cbn. apply Qeq_bool_iff. reflexivity.
Qed.

Lemma same_value_sym (a b : number) :
  same_value a b = true -> same_value b a = true.
Proof.
  destruct a, b; try discriminate; try reflexivity. cbn.
  rewrite !Qeq_bool_iff. now intros ->.
Qed.

Lemma same_value_trans (a b c : number) :
  same_value a b = true -> same_value b c = true -> same_value a c = true.
Proof.
  destruct a, b, c; try discriminate; try reflexivity. cbn.
  rewrite !Qeq_bool_iff. intros -> ->. reflexivity.
Qed.

Lemma same_dep_refl (a : option number) : same_dep a a = true.
Proof. destruct a; [apply same_value_refl | reflexivity]. Qed.

Lemma same_dep_sym (a b : option number) :
  same_dep a b = true -> same_dep b a = true.
Proof.
  destruct a, b; try discriminate; try reflexivity. apply same_value_sym.
Qed.

Lemma same_dep_trans (a b c : option number) :
  same_dep a b = true -> same_dep b c = true -> same_dep a c = true.
Proof.
  destruct a, b, c; try discriminate; try reflexivity.
  apply same_value_trans.
Qed.

Lemma strict_eq_same_value (a s m : number) :
  strict_eq a s = true -> same_value s m = true -> strict_eq a m = true.
Proof.
  destruct a, s, m; try discriminate; try reflexivity. cbn.
  rewrite !Qeq_bool_iff. intros -> ->. reflexivity.
Qed.

Lemma same_value_is_int (s v : number) (m : Z) :
  same_value s v = true -> is_int v m -> is_int s m.
Proof.
  intros Hs (q & -> & Hq). destruct s as [q'| | |]; try discriminate.
  cbn in Hs. apply Qeq_bool_iff in Hs. exists q'. split; [reflexivity|].
  now rewrite Hs.
Qed.

(** Every row of a table is the loop body at a counter between 1 and
    360. *)
Lemma table_lookup_row (f : LoanForm) (rows : list Row) (j : nat) (row : Row) :
  generateTableData f = Some rows ->
  rows !! j = Some row ->
  exists p r,
    loanAmount f = Some p /\ interestRatePerMonth f = Some r
    /\ row = tableRow p r (1 + Z.of_nat j) /\ 1 + Z.of_nat j <= 360.
Proof.
  intros Hgen Hj.
  destruct (generateTableData_shape f)
    as [H|(p & r & m & Hp & Hr & _ & Hge & H)];
    rewrite H in Hgen; apply (inj Some) in Hgen; subst rows.
  - discriminate Hj.
  - apply lookup_table in Hj as [-> Hlt].
    pose proof (shown_bounds m Hge).
    exists p, r. repeat split; try assumption. lia.
Qed.

Section Reachability.

Variable parseFloat : string -> number.
Variable parseInt10 : string -> number.
Variable toString : number -> string.

Lemma parsed_not_NaN (num : number) :
  (if isNaN num then None else Some num) <> Some NaN.
Proof. destruct num; discriminate. Qed.

(** What a handler does to the fields the invariant speaks of. *)
Lemma handle_keeps (e : Event) (st : State) :
  months (form st) <> Some NaN ->
  loanAmount (form st) <> Some NaN ->
  (exists r, interestRatePerMonth (form st) = Some r /\ isNaN r = false) ->
  modalInterestRate st <> Some NaN ->
  months (form (handle parseFloat parseInt10 toString e st)) <> Some NaN
  /\ loanAmount (form (handle parseFloat parseInt10 toString e st)) <> Some NaN
  /\ (exists r, interestRatePerMonth (form (handle parseFloat parseInt10 toString e st)) = Some r
                /\ isNaN r = false)
  /\ modalInterestRate (handle parseFloat parseInt10 toString e st) <> Some NaN
  /\ (selectedMonth (handle parseFloat parseInt10 toString e st) = selectedMonth st
      \/ selectedMonth (handle parseFloat parseInt10 toString e st) = months (form (handle parseFloat parseInt10 toString e st))).
Proof.
  intros Im Il Ir Id. destruct e; cbn [handle].
  - (* LoanAmountText *)
    repeat split; auto. apply parsed_not_NaN.
  - (* MonthsText *)
    repeat split; auto. apply parsed_not_NaN.
  - (* MonthsDecrement *)
    repeat split; auto. cbn. intros H. injection H as H.
    pose proof (isNaN_max (ofZ 1)
                  (sub (or_zero (months (form st))) (ofZ 1)) eq_refl
                  (isNaN_sub_one _ (isNaN_or_zero _))) as N.
    rewrite H in N. discriminate N.
  - (* MonthsIncrement *)
    repeat split; auto. cbn. intros H. injection H as H.
    pose proof (isNaN_min (ofZ 360)
                  (add (or_zero (months (form st))) (ofZ 1)) eq_refl
                  (isNaN_add_one _ (isNaN_or_zero _))) as N.
    rewrite H in N. discriminate N.
  - (* MonthsBlur *)
    unfold handleMonthsBlur. cbn [getValues].
    rewrite isNaN_or_zero. cbn [orb].
    destruct (months (form st)) as [m|] eqn:Hm.
    + destruct (lt m (ofZ 1)); [repeat split; auto; discriminate|].
      destruct (gt m (ofZ 360)); [repeat split; auto; discriminate|].
      repeat split; auto; try (now rewrite Hm).
    + repeat split; auto; discriminate.
  - (* OpenRateModal *)
    repeat split; auto.
  - (* ModalRateText *)
    repeat split; auto. apply parsed_not_NaN.
  - (* SaveRate *)
    unfold handleSaveInterestRate, saveCustomInterestRate.
    destruct (modalInterestRate st) as [rate|] eqn:Hmod;
      [|repeat split; auto; cbn; now rewrite Hmod].
    destruct (isNaN rate) eqn:Nr; cbn [negb];
      [repeat split; auto; cbn; now rewrite Hmod|].
    destruct (setItem CUSTOM_INTEREST_RATE_KEY (toString rate) (storage st));
      [|repeat split; auto; cbn; now rewrite Hmod].
    repeat split; auto; cbn; [now exists rate | now rewrite Hmod].
  - (* CloseRateModal *)
    repeat split; auto. cbn. destruct Ir as (r & -> & Nr).
    intros H. injection H as ->. discriminate Nr.
  - (* RowPress *)
    destruct (generateTableData (form st)) as [rows|] eqn:Hgen;
      [|repeat split; auto].
    destruct (rows !! index) as [row|] eqn:Hrow; [|repeat split; auto].
    destruct (table_lookup_row _ _ _ _ Hgen Hrow) as (p & r & _ & _ & -> & _).
    repeat split; auto; discriminate.
  - (* RateLoaded *)
    unfold loadCustomInterestRate.
    destruct (getItem CUSTOM_INTEREST_RATE_KEY (storage st)) as [[stored|]|];
      [|repeat split; auto..].
    destruct (isNaN (parseFloat stored)) eqn:Np; cbn [negb andb].
    + destruct (removeItem CUSTOM_INTEREST_RATE_KEY (storage st));
        repeat split; auto; now exists (ofZ 10).
    + destruct (ge (parseFloat stored) (Fin (1 # 10))
                && le (parseFloat stored) (ofZ 100)).
      * repeat split; auto; now exists (parseFloat stored).
      * destruct (removeItem CUSTOM_INTEREST_RATE_KEY (storage st));
          repeat split; auto; now exists (ofZ 10).
Qed.

Lemma mount_invariant (s : AsyncStorage) : invariant (mount s).
Proof.
  repeat split; try discriminate. now exists (ofZ 10).
Qed.

Lemma step_invariant (e : Event) (st : State) :
  invariant st -> invariant (step parseFloat parseInt10 toString e st).
Proof.
  intros (Is & Im & Il & Ir & Id).
  destruct (handle_keeps e st Im Il Ir Id) as (Hm & Hl & Hr & Hd & Hsel).
  unfold step.
  destruct (deps_changed (form st) (form (handle parseFloat parseInt10 toString e st))) eqn:Hdeps.
  - unfold invariant.
    rewrite form_selectedMonthEffect, selectedMonth_selectedMonthEffect.
    split; [apply same_dep_refl|]. repeat split; auto.
    unfold selectedMonthEffect. now destruct (months (form (handle parseFloat parseInt10 toString e st))).
  - repeat split; auto.
    destruct Hsel as [-> | ->]; [|apply same_dep_refl].
    apply same_dep_trans with (months (form st)); [exact Is|].
    unfold deps_changed in Hdeps. apply negb_false_iff in Hdeps.
    now apply andb_true_iff in Hdeps as [Hdeps%andb_true_iff _].
Qed.

Lemma run_invariant (es : list Event) (s : AsyncStorage) :
  invariant (run parseFloat parseInt10 toString es (mount s)).
Proof.
  induction es as [|e es IH] using rev_ind.
  - apply mount_invariant.
  - unfold run. rewrite foldl_snoc. now apply step_invariant.
Qed.

Lemma modalInterestRate_selectedMonthEffect (st : State) :
  modalInterestRate (selectedMonthEffect st) = modalInterestRate st.
Proof. unfold selectedMonthEffect. now destruct (months (form st)). Qed.

(** No render of the component shows [NaN] in a field, and the rate is
    always defined. *)
Lemma rendered_no_NaN (st : State) :
  rendered parseFloat parseInt10 toString st ->
  months (form st) <> Some NaN
  /\ loanAmount (form st) <> Some NaN
  /\ (exists r, interestRatePerMonth (form st) = Some r /\ isNaN r = false)
  /\ modalInterestRate st <> Some NaN
  /\ selectedMonth st <> Some NaN.
Proof.
  induction 1 as [s|e st _ (Im & Il & Ir & Id & Is)|st _ (Im & Il & Ir & Id & Is)].
  - repeat split; try discriminate. now exists (ofZ 10).
  - destruct (handle_keeps e st Im Il Ir Id) as (Hm & Hl & Hr & Hd & Hsel).
    repeat split; auto. now destruct Hsel as [-> | ->].
  - rewrite form_selectedMonthEffect, selectedMonth_selectedMonthEffect,
      modalInterestRate_selectedMonthEffect.
    repeat split; auto.
Qed.

(** The settled states are among the rendered ones. *)
Lemma reachable_rendered (st : State) :
  reachable parseFloat parseInt10 toString st ->
  rendered parseFloat parseInt10 toString st.
Proof.
  intros (s & es & ->). induction es as [|e es IH] using rev_ind.
  - apply rendered_effect, rendered_first.
  - unfold run. rewrite foldl_snoc. unfold step.
    destruct (deps_changed _ _).
    + now apply rendered_effect, rendered_handler.
    + now apply rendered_handler.
Qed.

(** In every state the component renders (the first render, the renders
    between a handler and the selected-month effect, and the settled
    states), whatever the parsers return and whatever the store holds:
    neither the months, the loan amount, the modal rate nor the selected
    month is [NaN], and the rate is a defined number.  In the settled
    states, moreover, the selected month is the months field. *)
Theorem rendered_invariant (st : State) :
  rendered parseFloat parseInt10 toString st ->
  (months (form st) <> Some NaN
   /\ loanAmount (form st) <> Some NaN
   /\ (exists r, interestRatePerMonth (form st) = Some r /\ isNaN r = false)
   /\ modalInterestRate st <> Some NaN
   /\ selectedMonth st <> Some NaN)
  /\ (reachable parseFloat parseInt10 toString st ->
      same_dep (selectedMonth st) (months (form st)) = true).
Proof.
  intros Hr. split; [now apply rendered_no_NaN|].
  intros (s & es & ->). apply run_invariant.
Qed.

(** C6.  On blur of the months field, in every state the component
    renders: the current months value is never [NaN]; an undefined, [NaN]
    or sub-1 value is replaced by 1; a value above 360 is replaced by 360;
    and a value in [1, 360] is left unchanged (nothing else changes in any
    case). *)
Theorem handleMonthsBlur_on_rendered (st : State) :
  rendered parseFloat parseInt10 toString st ->
  months (form st) <> Some NaN
  /\ (months (form st) = None \/ months (form st) = Some NaN
      \/ (exists m, months (form st) = Some m /\ lt m (ofZ 1) = true) ->
      handleMonthsBlur st = setValue f_months (Some (ofZ 1)) st)
  /\ (forall m, months (form st) = Some m -> gt m (ofZ 360) = true ->
      handleMonthsBlur st = setValue f_months (Some (ofZ 360)) st)
  /\ (forall m, months (form st) = Some m ->
      ge m (ofZ 1) = true -> le m (ofZ 360) = true ->
      handleMonthsBlur st = st).
Proof.
  intros Hr. destruct (rendered_no_NaN st Hr) as (Hm & _).
  destruct (handleMonthsBlur_repairs st) as (Hnone & Hlow & Hhigh & Hin).
  split; [exact Hm|]. split; [|split; assumption].
  intros [H|[H|(m & H & Hlt)]].
  - now apply Hnone.
  - contradiction.
  - now apply (Hlow m).
Qed.

(** In every reachable state a blur of the months field leaves a value
    that passes the schema: the [NaN] the handler would keep never gets
    into the form. *)
Theorem reachable_blur_valid (st : State) :
  reachable parseFloat parseInt10 toString st ->
  validate f_months (form (handleMonthsBlur st)) = [].
Proof.
  intros (s & es & ->).
  apply handleMonthsBlur_valid, (run_invariant es s).
Qed.

Lemma summaryData_selected (st : State) (rows : list Row) (s : number) :
  generateTableData (form st) = Some rows ->
  selectedMonth st = Some s ->
  summaryData st
  = Some match List.find (fun item => strict_eq (month item) s) rows with
         | Some row => summary_row row
         | None => summary_undefined
         end.
Proof.
  intros Hgen Hs. unfold summaryData, getSelectedMonthSummary.
  now rewrite Hgen, Hs.
Qed.

(** The summary in a settled state (the selected-month effect has run
    after the last event).  With an undefined months field it is [null]:
    the table is empty and the first-row fallback of
    [getSelectedMonthSummary] is not taken.  A summary row is always a row
    whose month is the months field.  With loan amount and rate present
    and an integer term in [1, 360] the summary is the row of the term.
    In the render between the next handler and the effect, the selection
    is still the one of the settled state (or, after a row press, already
    the new months), so the summary of that render is computed from the
    previous months: it can be the first-row fallback or undefined
    ([stale_render_summary] below). *)
Theorem settled_summary (st : State) :
  reachable parseFloat parseInt10 toString st ->
  (months (form st) = None -> summaryData st = Some summary_null)
  /\ (forall row, summaryData st = Some (summary_row row) ->
        exists m, months (form st) = Some m
                  /\ strict_eq (month row) m = true)
  /\ (forall p r v m,
        loanAmount (form st) = Some p ->
        interestRatePerMonth (form st) = Some r ->
        months (form st) = Some v ->
        is_int v m -> valid_term m ->
        summaryData st = Some (summary_row (tableRow p r m)))
  /\ (forall e,
        selectedMonth (handle parseFloat parseInt10 toString e st)
        = selectedMonth st
        \/ selectedMonth (handle parseFloat parseInt10 toString e st)
           = months (form (handle parseFloat parseInt10 toString e st))).
Proof.
  intros (s & es & ->).
  pose proof (run_invariant es s) as H.
  set (st := run parseFloat parseInt10 toString es (mount s)) in *.
  destruct H as (Is & Im & Il & Ir & Id). split; [|split; [|split]].
  - intros Hm. rewrite Hm in Is.
    destruct (selectedMonth st) eqn:Hs; [discriminate Is|].
    unfold summaryData, getSelectedMonthSummary.
    rewrite Hs, generateTableData_absent by auto. reflexivity.
  - intros row Hsum.
    destruct (generateTableData_returns (form st)) as [rows Hgen].
    destruct (months (form st)) as [m|] eqn:Hm.
    + destruct (selectedMonth st) as [sel|] eqn:Hs; [|discriminate Is].
      rewrite (summaryData_selected st rows sel Hgen Hs) in Hsum.
      destruct (List.find _ rows) as [row'|] eqn:Hfind; [|discriminate Hsum].
      injection Hsum as ->. apply find_some in Hfind as [_ Heq].
      exists m. split; [reflexivity|].
      now apply (strict_eq_same_value _ sel).
    + destruct (selectedMonth st) eqn:Hs; [discriminate Is|].
      unfold summaryData, getSelectedMonthSummary in Hsum.
      rewrite Hs, generateTableData_absent in Hsum by auto.
      discriminate Hsum.
  - intros p r v m Hp Hr Hm Hint Hv. rewrite Hm in Is.
    destruct (selectedMonth st) as [sel|] eqn:Hs; [|discriminate Is].
    cbn in Is. pose proof (same_value_is_int _ _ _ Is Hint) as (q' & -> & Hq').
    destruct Hint as (q & -> & Hq).
    destruct (term_row_found _ _ _ _ _ Hp Hr Hm Hq Hv) as [Hgen _].
    rewrite (summaryData_selected st _ _ Hgen Hs).
    pose proof (horizon_ge_term m Hv) as Hh. unfold valid_term in Hv.
    rewrite (find_table p r q' m Hq' (Z.to_nat (m - 1)) 1 (horizon m));
      [reflexivity|lia|lia].
  - intros e. now destruct (handle_keeps e st Im Il Ir Id) as (_ & _ & _ & _ & H).
Qed.

Lemma step_RowPress (st : State) (rows : list Row) (index : nat) (row : Row) :
  generateTableData (form st) = Some rows ->
  rows !! index = Some row ->
  step parseFloat parseInt10 toString (RowPress index) st
  = handleRowClick (month row) st.
Proof.
  intros Hgen Hrow. unfold step. cbn [handle]. rewrite Hgen, Hrow.
  now destruct (deps_changed _ _).
Qed.

(** A press on a row of the table makes that very row the summary: the
    months field becomes the month of the row, and the row of that month
    in the new table (which may be shorter) carries the same values. *)
Theorem row_press_focuses_row
    (st : State) (rows : list Row) (index : nat) (row : Row) :
  generateTableData (form st) = Some rows ->
  rows !! index = Some row ->
  months (form (step parseFloat parseInt10 toString (RowPress index) st))
  = Some (month row)
  /\ summaryData (step parseFloat parseInt10 toString (RowPress index) st)
     = Some (summary_row row).
Proof.
  intros Hgen Hrow. rewrite (step_RowPress st rows index row Hgen Hrow).
  destruct (table_lookup_row _ _ _ _ Hgen Hrow) as (p & r & Hp & Hr & -> & Hle).
  split; [reflexivity|].
  set (i := 1 + Z.of_nat index) in *.
  assert (Hv : valid_term i) by (unfold valid_term, i; lia).
  destruct (term_row_found
              (form (handleRowClick (ofZ i) st)) p r (inject_Z i) i)
    as [Hgen' Hfind]; try assumption; try reflexivity.
  unfold summaryData. cbn [month tableRow] in *. rewrite Hgen'.
  cbn [fmap option_fmap option_map]. f_equal. exact Hfind.
Qed.

End Reachability.

Lemma reachable_blur_valid_witness :
  validate f_months
    (form (handleMonthsBlur
             (run (fun _ => NaN) (fun _ => ofZ 400) (fun _ => "x")
                [MonthsText "400"] (mount working_storage)))) = [].
Proof.
  apply (reachable_blur_valid (fun _ => NaN) (fun _ => ofZ 400) (fun _ => "x")).
  exists working_storage, [MonthsText "400"]. reflexivity.
Defined.

Lemma settled_summary_witness :
  summaryData
    (run (fun _ => ofZ 1000) (fun _ => ofZ 5) (fun _ => "x")
       [LoanAmountText "1000"; MonthsText "5"] (mount working_storage))
  = Some (summary_row (tableRow (ofZ 1000) (ofZ 10) 5)).
Proof.
  assert (Hr : reachable (fun _ => ofZ 1000) (fun _ => ofZ 5) (fun _ => "x")
                 (run (fun _ => ofZ 1000) (fun _ => ofZ 5) (fun _ => "x")
                    [LoanAmountText "1000"; MonthsText "5"]
                    (mount working_storage))).
  { exists working_storage, [LoanAmountText "1000"; MonthsText "5"].
    reflexivity. }
  assert (Hint : is_int (ofZ 5) 5)
    by (exists (inject_Z 5); split; reflexivity).
  assert (Hv : valid_term 5) by (unfold valid_term; lia).
  exact (proj1 (proj2 (proj2 (settled_summary _ _ _ _ Hr)))
           (ofZ 1000) (ofZ 10) (ofZ 5) 5 eq_refl eq_refl eq_refl Hint Hv).
Defined.

(** The render between a handler and the effect.  From the settled state
    with loan amount 1000 and an undefined months field, typing 5 renders
    once with no selected month: the summary of that render is the
    first-row fallback (month 1); the effect then selects month 5.  From
    the settled state with months 5, clearing the field renders once with
    month 5 still selected and an empty table: the summary is
    [undefined]; the effect then makes it [null]. *)
Example stale_render_summary :
  let parseFloat := fun _ : string => ofZ 1000 in
  let parseInt10 := fun text : string =>
                      if String.eqb text "5" then ofZ 5 else NaN in
  let toString := fun _ : number => "x" in
  let cleared := run parseFloat parseInt10 toString
                   [LoanAmountText "1000"; MonthsText ""]
                   (mount working_storage) in
  let five := step parseFloat parseInt10 toString (MonthsText "5") cleared in
  summaryData cleared = Some summary_null
  /\ summaryData (handle parseFloat parseInt10 toString (MonthsText "5") cleared)
     = Some (summary_row (tableRow (ofZ 1000) (ofZ 10) 1))
  /\ summaryData five = Some (summary_row (tableRow (ofZ 1000) (ofZ 10) 5))
  /\ summaryData (handle parseFloat parseInt10 toString (MonthsText "") five)
     = Some summary_undefined
  /\ summaryData (step parseFloat parseInt10 toString (MonthsText "") five)
     = Some summary_null.
Proof. repeat split; vm_compute; reflexivity. Qed.

Lemma rendered_invariant_witness :
  months (form (initialState working_storage)) <> Some NaN
  /\ loanAmount (form (initialState working_storage)) <> Some NaN
  /\ (exists r, interestRatePerMonth (form (initialState working_storage))
                = Some r /\ isNaN r = false)
  /\ modalInterestRate (initialState working_storage) <> Some NaN
  /\ selectedMonth (initialState working_storage) <> Some NaN.
Proof.
  apply (proj1 (rendered_invariant
                  (fun _ => NaN) (fun _ => ofZ 400) (fun _ => "x")
                  (initialState working_storage)
                  (rendered_first _ _ _ working_storage))).
Defined.

Lemma handleMonthsBlur_on_rendered_witness :
  handleMonthsBlur
    (handle (fun _ => NaN) (fun _ => ofZ 400) (fun _ => "x")
       (MonthsText "400") (initialState working_storage))
  = setValue f_months (Some (ofZ 360))
      (handle (fun _ => NaN) (fun _ => ofZ 400) (fun _ => "x")
         (MonthsText "400") (initialState working_storage)).
Proof.
  assert (Hr : rendered (fun _ => NaN) (fun _ => ofZ 400) (fun _ => "x")
                 (handle (fun _ => NaN) (fun _ => ofZ 400) (fun _ => "x")
                    (MonthsText "400") (initialState working_storage)))
    by apply rendered_handler, rendered_first.
  exact (proj1 (proj2 (proj2 (handleMonthsBlur_on_rendered _ _ _ _ Hr)))
           (ofZ 400) eq_refl eq_refl).
Defined.

Lemma row_press_focuses_row_witness :
  exists rows row,
    generateTableData (sample_form 24) = Some rows
    /\ rows !! 4%nat = Some row
    /\ months (form (step (fun _ => NaN) (fun _ => NaN) (fun _ => "x")
                       (RowPress 4)
                       (with_form (sample_form 24)
                          (initialState working_storage))))
       = Some (month row)
    /\ summaryData (step (fun _ => NaN) (fun _ => NaN) (fun _ => "x")
                      (RowPress 4)
                      (with_form (sample_form 24)
                         (initialState working_storage)))
       = Some (summary_row row).
Proof.
  assert (Hgen : generateTableData (sample_form 24)
                 = Some (tableRow (ofZ 1000) (ofZ 10) <$> seqZ 1 (shown (ofZ 24))))
    by (now apply generateTableData_present).
  eexists _, (tableRow (ofZ 1000) (ofZ 10) 5).
  split; [exact Hgen|]. split; [reflexivity|].
  apply (row_press_focuses_row (fun _ => NaN) (fun _ => NaN) (fun _ => "x")
           (with_form (sample_form 24) (initialState working_storage))
           _ 4%nat _ Hgen).
  reflexivity.
Defined.

(** * The schedule under rounding *)

(** ** The loop and the rows *)

Lemma for_loop_seqZ_from (body : Z -> Row) (bound : number) (n : Z) :
  forall (fuel : nat) (i : Z),
    (forall j, i <= j -> le (ofZ j) bound = (j <=? n)) ->
    (Z.to_nat (n + 1 - i) < fuel)%nat ->
    for_loop fuel body i bound = Some (body <$> seqZ i (n + 1 - i)).
Proof.
  intros fuel. induction fuel as [|fuel IH]; intros i Hb Hfuel; [lia|].
  simpl. rewrite Hb by lia. destruct (i <=? n) eqn:E.
  - apply Z.leb_le in E.
    rewrite IH by (try lia; intros j Hj; apply Hb; lia).
    rewrite (seqZ_cons i) by lia. simpl.
    repeat f_equal; lia.
  - apply Z.leb_gt in E. now rewrite seqZ_nil by lia.
Qed.

(** A loop whose bound went through [Math.min(_, 360)] returns, with at
    most 360 rows, whatever the other argument is. *)
Lemma capped_loop (body : Z -> Row) (x : number) :
  exists n, n <= 360
    /\ for_loop loop_fuel body 1 (JS.min x (ofZ 360))
       = Some (body <$> seqZ 1 n).
Proof.
  assert (Hcase : (exists q, (q <= 360)%Q /\ JS.min x (ofZ 360) = Fin q)
                  \/ forall j, le (ofZ j) (JS.min x (ofZ 360)) = false).
  { destruct x as [q| | |].
    - left. unfold JS.min. cbn [isNaN orb lt ofZ].
      destruct (Qlt_bool (inject_Z 360) q) eqn:E.
      + exists (inject_Z 360). split; [apply Qle_refl | reflexivity].
      + exists q. split; [|reflexivity].
        apply Qnot_lt_le. intros H. apply Qlt_bool_iff in H.
        change (Qlt_bool (inject_Z 360) q = true) in H. congruence.
    - right. intros j. reflexivity.
    - left. exists (inject_Z 360). split; [apply Qle_refl | reflexivity].
    - right. intros j. reflexivity. }
  destruct Hcase as [(q & Hq & ->)|Hfalse].
  - exists (Qfloor q).
    assert (Hn : Qfloor q <= 360).
    { apply Qfloor_resp_le in Hq. exact Hq. }
    split; [exact Hn|].
    rewrite (for_loop_seqZ_from _ _ (Qfloor q)).
    + repeat f_equal; lia.
    + intros j _. apply le_ofZ_Fin.
    + unfold loop_fuel. lia.
  - exists 0. split; [lia|].
    rewrite (for_loop_seqZ_from _ _ 0).
    + reflexivity.
    + intros j Hj. rewrite Hfalse. symmetry. apply Z.leb_gt. lia.
    + unfold loop_fuel. lia.
Qed.

(** The rounded generator always returns: the empty table, or the rows
    [tableRow_fl p r i] for [i = 1 .. n] with [n <= 360]. *)
Lemma generateTableData_fl_shape (rnd : Q -> Q) (f : LoanForm) :
  generateTableData_fl rnd f = Some []
  \/ exists p r n,
       loanAmount f = Some p /\ interestRatePerMonth f = Some r
       /\ n <= 360
       /\ generateTableData_fl rnd f
          = Some (tableRow_fl rnd p r <$> seqZ 1 n).
Proof.
  unfold generateTableData_fl.
  destruct (loanAmount f) as [p|]; [|now left].
  destruct (interestRatePerMonth f) as [r|]; [|now left].
  destruct (months f) as [m|]; [|now left].
  destruct (ge m (ofZ 1)); [|now left].
  right. unfold actualMonthsToShow_fl.
  destruct (capped_loop (tableRow_fl rnd p r)
              (mul_fl rnd (ceil (div_fl rnd m (ofZ 12))) (ofZ 12)))
    as (n & Hn & ->).
  now exists p, r, n.
Qed.

(** With the identity as rounding the rounded generator is the exact
    one. *)
Lemma generateTableData_fl_exact (f : LoanForm) :
  generateTableData_fl (fun q => q) f = generateTableData f.
Proof.
  assert (Hfl : forall x, fl (fun q => q) x = x) by (now intros [q| | |]).
  assert (Hrow : forall p r i, tableRow_fl (fun q => q) p r i = tableRow p r i).
  { intros p r i.
    unfold tableRow_fl, tableRow, calculateInterest_fl, calculateInterest,
      add_fl, mul_fl, div_fl.
    now rewrite !Hfl. }
  unfold generateTableData_fl, generateTableData, actualMonthsToShow_fl,
    actualMonthsToShow, mul_fl, div_fl.
  destruct (loanAmount f) as [p|]; [|reflexivity].
  destruct (interestRatePerMonth f) as [r|]; [|reflexivity].
  destruct (months f) as [m|]; [|reflexivity].
  destruct (ge m (ofZ 1)); [|reflexivity].
  rewrite !Hfl.
  generalize (JS.min (mul (ceil (div m (ofZ 12))) (ofZ 12)) (ofZ 360)).
  generalize 1. generalize loop_fuel.
  intros fuel. induction fuel as [|fuel IH]; intros i b; [reflexivity|].
  simpl. now rewrite IH, Hrow.
Qed.

(** The rounded row of a finite loan amount and rate at counter
    [i >= 1]. *)
Lemma tableRow_fl_finite (rnd : Q -> Q) (p r : Q) (i : Z) :
  1 <= i ->
  tableRow_fl rnd (Fin p) (Fin r) i =
    let interest := rnd (rnd (p * rnd (r / 100)) * inject_Z i)%Q in
    let total := rnd (p + interest)%Q in
    {| month := ofZ i;
       interestAmount := Fin interest;
       totalAmount := Fin total;
       monthlyPayment := Fin (rnd (total / inject_Z i)%Q) |}.
Proof.
  intros Hi. unfold tableRow_fl. rewrite gt_counter_zero by lia.
  assert (HI : calculateInterest_fl rnd (Fin p) (Fin r) (ofZ i)
               = Fin (rnd (rnd (p * rnd (r / 100)) * inject_Z i)%Q))
    by reflexivity.
  rewrite HI.
  change (add_fl rnd (Fin p)
            (Fin (rnd (rnd (p * rnd (r / 100)) * inject_Z i)%Q)))
    with (Fin (rnd (p + rnd (rnd (p * rnd (r / 100)) * inject_Z i))%Q)).
  unfold div_fl. rewrite div_by_counter by lia. reflexivity.
Qed.

(** ** Rounding to the nearest double *)

Section Round53.

Local Open Scope Q_scope.

Lemma pow2_pos (e : Z) : 0 < pow2 e.
Proof. apply Qpower_0_lt. reflexivity. Qed.

Lemma pow2_add (a b : Z) : pow2 (a + b) == pow2 a * pow2 b.
Proof. apply Qpower_plus. discriminate. Qed.

Lemma pow2_le (a b : Z) : (a <= b)%Z -> pow2 a <= pow2 b.
Proof. intros H. apply Qpower_le_compat_l; [exact H | discriminate]. Qed.

Lemma pow2_lt_inv (a b : Z) : pow2 a < pow2 b -> (a < b)%Z.
Proof. intros H. apply (Qpower_lt_compat_l_inv 2); [exact H | reflexivity]. Qed.

Lemma pow2_nonneg (n : Z) : (0 <= n)%Z -> pow2 n == inject_Z (2 ^ n).
Proof. intros H. unfold pow2. now rewrite Zpower_Qpower. Qed.

Lemma round_half_even_floor (x : Q) :
  (Qfloor x <= round_half_even x <= Qfloor x + 1)%Z.
Proof.
  unfold round_half_even.
  destruct (Qcompare (x - inject_Z (Qfloor x)) (1 # 2)); try lia.
  destruct (Z.even (Qfloor x)); lia.
Qed.

Lemma round_half_even_error (x : Q) :
  inject_Z (round_half_even x) - (1 # 2) <= x
  <= inject_Z (round_half_even x) + (1 # 2).
Proof.
  pose proof (Qfloor_le x) as Hlo. pose proof (Qlt_floor x) as Hhi.
  rewrite inject_Z_plus in Hhi. change (inject_Z 1) with 1 in Hhi.
  unfold round_half_even. cbv zeta.
  destruct (Qcompare_spec (x - inject_Z (Qfloor x)) (1 # 2)) as [H|H|H];
    rewrite ?inject_Z_plus; change (inject_Z 1) with 1.
  - assert (H1 : x - inject_Z (Qfloor x) <= 1 # 2) by (rewrite H; apply Qle_refl).
    assert (H2 : 1 # 2 <= x - inject_Z (Qfloor x)) by (rewrite H; apply Qle_refl).
    destruct (Z.even (Qfloor x)); rewrite ?inject_Z_plus;
      change (inject_Z 1) with 1; split; lra.
  - split; lra.
  - split; lra.
Qed.

Lemma round_half_even_mono (x y : Q) :
  x <= y -> (round_half_even x <= round_half_even y)%Z.
Proof.
  intros Hxy.
  pose proof (Qfloor_resp_le _ _ Hxy) as Hf.
  pose proof (round_half_even_floor x) as Hx.
  pose proof (round_half_even_floor y) as Hy.
  destruct (Z.eq_dec (Qfloor x) (Qfloor y)) as [E|E]; [|lia].
  unfold round_half_even in *. rewrite <- E in *.
  destruct (Qcompare_spec (x - inject_Z (Qfloor x)) (1 # 2)) as [H|H|H];
    destruct (Qcompare_spec (y - inject_Z (Qfloor x)) (1 # 2)) as [H'|H'|H'];
    try lia; try (exfalso; lra);
    try (assert (x - inject_Z (Qfloor x) <= 1 # 2) by (rewrite H; apply Qle_refl));
    try (assert (1 # 2 <= x - inject_Z (Qfloor x)) by (rewrite H; apply Qle_refl));
    try (assert (y - inject_Z (Qfloor x) <= 1 # 2) by (rewrite H'; apply Qle_refl));
    try (assert (1 # 2 <= y - inject_Z (Qfloor x)) by (rewrite H'; apply Qle_refl));
    try (exfalso; lra); destruct (Z.even (Qfloor x)); lia.
Qed.

Lemma round_half_even_ge (x : Q) (n : Z) :
  inject_Z n <= x -> (n <= round_half_even x)%Z.
Proof.
  intros H. apply Qfloor_resp_le in H. rewrite Qfloor_Z in H.
  pose proof (round_half_even_floor x). lia.
Qed.

Lemma round_half_even_le (x : Q) (n : Z) :
  x <= inject_Z n -> (round_half_even x <= n)%Z.
Proof.
  intros H.
  pose proof (round_half_even_floor x) as Hr.
  pose proof (Qfloor_resp_le _ _ H) as Hf. rewrite Qfloor_Z in Hf.
  destruct (Z.eq_dec (Qfloor x) n) as [E|E]; [|lia].
  unfold round_half_even. rewrite E.
  destruct (Qcompare_spec (x - inject_Z n) (1 # 2)) as [H'|H'|H'];
    try lia;
    try (assert (1 # 2 <= x - inject_Z n) by (rewrite H'; apply Qle_refl));
    exfalso; lra.
Qed.

Lemma Zlog2_bounds (a : Z) :
  (0 < a)%Z ->
  pow2 (Z.log2 a) <= inject_Z a /\ inject_Z a < pow2 (Z.log2 a + 1).
Proof.
  intros Ha. pose proof (Z.log2_spec a Ha) as [H1 H2].
  pose proof (Z.log2_nonneg a) as Hn.
  rewrite !pow2_nonneg by lia.
  rewrite <- Zle_Qle, <- Zlt_Qlt. split; [exact H1|].
  now replace (Z.log2 a + 1)%Z with (Z.succ (Z.log2 a)) by lia.
Qed.

Lemma floor_log2_spec (q : Q) :
  0 < q -> pow2 (floor_log2 q) <= q /\ q < pow2 (floor_log2 q + 1).
Proof.
  intros Hq. destruct q as [a d].
  assert (Ha : (0 < a)%Z).
  { unfold Qlt in Hq. simpl in Hq. lia. }
  destruct (Zlog2_bounds a Ha) as [Ha1 Ha2].
  destruct (Zlog2_bounds (Zpos d) eq_refl) as [Hd1 Hd2].
  assert (E : a # d == inject_Z a / inject_Z (Zpos d)) by apply Qmake_Qdiv.
  assert (Hdpos : 0 < inject_Z (Zpos d)) by reflexivity.
  unfold floor_log2. cbn [Qnum Qden].
  set (la := Z.log2 a) in *. set (ld := Z.log2 (Zpos d)) in *.
  destruct (Qle_bool (pow2 (la - ld)) (a # d)) eqn:Hb.
  - apply Qle_bool_iff in Hb. split; [exact Hb|].
    rewrite E. apply Qlt_shift_div_r; [exact Hdpos|].
    apply Qlt_le_trans with (pow2 (la - ld + 1) * pow2 ld).
    + rewrite <- pow2_add. now replace (la - ld + 1 + ld)%Z with (la + 1)%Z by lia.
    + apply Qmult_le_l; [apply pow2_pos | exact Hd1].
  - assert (Hlt : a # d < pow2 (la - ld)).
    { apply Qnot_le_lt. intros H. apply Qle_bool_iff in H. congruence. }
    split.
    + rewrite E. apply Qle_shift_div_l; [exact Hdpos|].
      apply Qle_trans with (pow2 (la - ld - 1) * pow2 (ld + 1)).
      * apply Qmult_le_l; [apply pow2_pos | now apply Qlt_le_weak].
      * rewrite <- pow2_add.
        now replace (la - ld - 1 + (ld + 1))%Z with la by lia.
    + now replace (la - ld - 1 + 1)%Z with (la - ld)%Z by lia.
Qed.

Lemma floor_log2_mono (x y : Q) :
  0 < x -> x <= y -> (floor_log2 x <= floor_log2 y)%Z.
Proof.
  intros Hx Hxy.
  assert (Hy : 0 < y) by (eapply Qlt_le_trans; eassumption).
  destruct (floor_log2_spec x Hx) as [H1 _].
  destruct (floor_log2_spec y Hy) as [_ H2].
  assert (H : pow2 (floor_log2 x) < pow2 (floor_log2 y + 1)).
  { eapply Qle_lt_trans; [exact H1|]. eapply Qle_lt_trans; eassumption. }
  apply pow2_lt_inv in H. lia.
Qed.

(** The scaled significand lies in [2^52, 2^53). *)
Lemma significand_bounds (q : Q) :
  0 < q ->
  inject_Z (2 ^ 52) <= q / pow2 (floor_log2 q - 52)
  /\ q / pow2 (floor_log2 q - 52) < inject_Z (2 ^ 53).
Proof.
  intros Hq. destruct (floor_log2_spec q Hq) as [H1 H2].
  pose proof (pow2_pos (floor_log2 q - 52)) as Hu.
  rewrite <- !pow2_nonneg by lia. split.
  - apply Qle_shift_div_l; [exact Hu|].
    rewrite <- pow2_add. now replace (52 + (floor_log2 q - 52))%Z with (floor_log2 q) by lia.
  - apply Qlt_shift_div_r; [exact Hu|].
    rewrite <- pow2_add. now replace (53 + (floor_log2 q - 52))%Z with (floor_log2 q + 1)%Z by lia.
Qed.

Lemma round53_pos_eq (q : Q) :
  round53_pos q
  == inject_Z (round_half_even (q / pow2 (floor_log2 q - 52)))
     * pow2 (floor_log2 q - 52).
Proof. unfold round53_pos. apply Qred_correct. Qed.

Lemma round53_pos_between (q : Q) :
  0 < q ->
  pow2 (floor_log2 q) <= round53_pos q <= pow2 (floor_log2 q + 1).
Proof.
  intros Hq. destruct (significand_bounds q Hq) as [H1 H2].
  pose proof (pow2_pos (floor_log2 q - 52)) as Hu.
  rewrite round53_pos_eq.
  set (s := q / pow2 (floor_log2 q - 52)) in *.
  pose proof (round_half_even_ge s _ H1) as Hge.
  pose proof (round_half_even_le s _ (Qlt_le_weak _ _ H2)) as Hle.
  rewrite Zle_Qle in Hge, Hle. rewrite <- !pow2_nonneg in Hge, Hle by lia.
  split.
  - replace (floor_log2 q) with (52 + (floor_log2 q - 52))%Z at 1 by lia.
    rewrite pow2_add. apply Qmult_le_r; assumption.
  - replace (floor_log2 q + 1)%Z with (53 + (floor_log2 q - 52))%Z by lia.
    rewrite pow2_add. apply Qmult_le_r; assumption.
Qed.

Lemma round53_pos_error (q : Q) :
  0 < q ->
  q * (1 - unit_roundoff) <= round53_pos q <= q * (1 + unit_roundoff).
Proof.
  intros Hq. destruct (floor_log2_spec q Hq) as [H1 _].
  pose proof (pow2_pos (floor_log2 q - 52)) as Hu.
  rewrite round53_pos_eq.
  set (e := floor_log2 q) in *. set (U := pow2 (e - 52)) in *.
  pose proof (round_half_even_error (q / U)) as [Hlo Hhi].
  set (n := inject_Z (round_half_even (q / U))) in *.
  assert (Eq : q / U * U == q) by (field; lra).
  assert (HU : U * (1 # 2) <= q * unit_roundoff).
  { assert (E2 : pow2 e == U * inject_Z (2 ^ 52)).
    { unfold U. rewrite <- pow2_nonneg by lia. rewrite <- pow2_add.
      now replace (e - 52 + 52)%Z with e by lia. }
    rewrite E2 in H1. unfold unit_roundoff.
    change (inject_Z (2 ^ 52)) with 4503599627370496 in H1. lra. }
  assert (H3 : (n - (1 # 2)) * U <= q / U * U)
    by (apply Qmult_le_r; assumption).
  assert (H4 : q / U * U <= (n + (1 # 2)) * U)
    by (apply Qmult_le_r; assumption).
  rewrite Eq in H3, H4. split; lra.
Qed.

Lemma round53_pos_mono (x y : Q) :
  0 < x -> x <= y -> round53_pos x <= round53_pos y.
Proof.
  intros Hx Hxy.
  assert (Hy : 0 < y) by (eapply Qlt_le_trans; eassumption).
  pose proof (floor_log2_mono x y Hx Hxy) as He.
  destruct (Z.eq_dec (floor_log2 x) (floor_log2 y)) as [E|E].
  - rewrite !round53_pos_eq, E.
    pose proof (pow2_pos (floor_log2 y - 52)) as Hu.
    apply Qmult_le_r; [exact Hu|]. rewrite <- Zle_Qle.
    apply round_half_even_mono.
    apply Qmult_le_r with (z := pow2 (floor_log2 y - 52)); [exact Hu|].
    assert (E1 : forall z, z / pow2 (floor_log2 y - 52) * pow2 (floor_log2 y - 52) == z)
      by (intros z; field; lra).
    now rewrite !E1.
  - destruct (round53_pos_between x Hx) as [_ H1].
    destruct (round53_pos_between y Hy) as [H2 _].
    eapply Qle_trans; [exact H1|]. eapply Qle_trans; [|exact H2].
    apply pow2_le. lia.
Qed.

(** [round53] is monotone on positive values and accurate to the unit
    roundoff on every positive value. *)
Lemma round53_positive (q : Q) : 0 < q -> round53 q = round53_pos q.
Proof.
  intros Hq. destruct q as [[|a|a] d]; try reflexivity; discriminate Hq.
Qed.

Lemma round53_monotone : rounding_monotone round53.
Proof.
  intros x y Hx Hxy.
  assert (Hy : 0 < y) by (eapply Qlt_le_trans; eassumption).
  rewrite !round53_positive by assumption.
  now apply round53_pos_mono.
Qed.

Lemma round53_accurate : rounding_accurate round53.
Proof.
  intros x [Hlo _].
  assert (Hx : 0 < x) by (eapply Qlt_le_trans; [|exact Hlo]; reflexivity).
  rewrite round53_positive by assumption.
  now apply round53_pos_error.
Qed.

End Round53.

(** [round53] gives the doubles the runtime computes: the quotient
    [2200 / 12], the decimal 0.1, the sum 1000 + 1e-19 (absorbed), and
    the ties at 2^53 + 1. *)
Example round53_values :
  round53 (2200 # 12) = (6450468216285867 # 35184372088832)%Q
  /\ round53 (1 # 10) = (3602879701896397 # 36028797018963968)%Q
  /\ round53 (1000 + (1 # 10000000000000000000)) = 1000%Q
  /\ round53 9007199254740993 = 9007199254740992%Q.
Proof. repeat split; vm_compute; reflexivity. Qed.

(** Why the properties under rounding are stated as they are.  With loan
    amount 1000, rate 10 and month 22 the rounded product
    [monthlyPayment * month] is not [totalAmount] (it is the next double,
    3200.0000000000005).  And with the rate 1e-20, below the valid range,
    the totals of months 1 and 2 are both 1000: the schedule is monotone
    under rounding for valid rates only. *)
Example rounding_effects :
  mul_fl round53 (monthlyPayment (tableRow_fl round53 (ofZ 1000) (ofZ 10) 22))
    (ofZ 22)
  = Fin (7036874417766401 # 2199023255552)
  /\ totalAmount (tableRow_fl round53 (ofZ 1000) (ofZ 10) 22) = Fin 3200
  /\ totalAmount
       (tableRow_fl round53 (ofZ 1000)
          (Fin (round53 (1 # 100000000000000000000))) 1)
     = Fin 1000
  /\ totalAmount
       (tableRow_fl round53 (ofZ 1000)
          (Fin (round53 (1 # 100000000000000000000))) 2)
     = Fin 1000.
Proof. repeat split; vm_compute; reflexivity. Qed.

(** ** Amounts of a valid schedule under rounding *)

Section RoundedAmounts.

Local Open Scope Q_scope.

Variable rnd : Q -> Q.
Hypothesis Hmono : rounding_monotone rnd.
Hypothesis Hacc : rounding_accurate rnd.
Variables p r : Q.
Hypothesis Hp : valid_principal p.
Hypothesis Hr : valid_rate r.

Lemma rate_fraction_bounds :
  (1 # 1001 <= rnd (r / 100) <= 1001 # 1000).
Proof.
  unfold valid_rate in Hr.
  assert (Hx : 1 # 1024 <= r / 100 <= 1073741824).
  { split.
    - apply Qle_shift_div_l; lra.
    - apply Qle_shift_div_r; lra. }
  pose proof (Hacc _ Hx) as H. unfold unit_roundoff in H.
  assert (Hlo : 1 # 1000 <= r / 100) by (apply Qle_shift_div_l; lra).
  assert (Hhi : r / 100 <= 1) by (apply Qle_shift_div_r; lra).
  lra.
Qed.

Lemma base_interest_bounds :
  let c := rnd (p * rnd (r / 100)) in
  0 < c /\ p <= 1002 * c /\ c <= (1002 # 1000) * p.
Proof.
  intros c. subst c.
  pose proof rate_fraction_bounds as Ha.
  set (a := rnd (r / 100)) in *.
  unfold valid_principal in Hp.
  assert (Hx : 1 # 1024 <= p * a <= 1073741824) by nra.
  pose proof (Hacc _ Hx) as H. unfold unit_roundoff in H.
  set (c := rnd (p * a)) in *.
  assert (H1 : p * (1 # 1001) <= p * a) by nra.
  assert (H2 : p * a <= p * (1001 # 1000)) by nra.
  repeat split; lra.
Qed.

Lemma interest_bounds (x : Q) :
  1 <= x <= 360 ->
  let c := rnd (p * rnd (r / 100)) in
  c * x * (1 - unit_roundoff) <= rnd (c * x) <= c * x * (1 + unit_roundoff).
Proof.
  intros Hx c.
  destruct base_interest_bounds as (Hc & Hpc & Hcp). fold c in Hc, Hpc, Hcp.
  unfold valid_principal in Hp.
  apply Hacc. nra.
Qed.

Lemma total_bounds (x : Q) :
  1 <= x <= 360 ->
  let c := rnd (p * rnd (r / 100)) in
  let I := rnd (c * x) in
  (p + I) * (1 - unit_roundoff) <= rnd (p + I) <= (p + I) * (1 + unit_roundoff).
Proof.
  intros Hx c I.
  destruct base_interest_bounds as (Hc & Hpc & Hcp). fold c in Hc, Hpc, Hcp.
  pose proof (interest_bounds x Hx) as HI. cbv zeta in HI. fold c in HI. fold I in HI.
  unfold valid_principal in Hp. unfold unit_roundoff in *.
  apply Hacc.
  assert (Hcx1 : c <= c * x) by nra.
  assert (Hcx2 : c * x <= 360 * c) by nra.
  split; lra.
Qed.


(** The amounts at two counters [x < y], from the error bounds alone. *)
Lemma rounded_interest_increases (c x y Ix Iy : Q) :
  0 < c -> 1 <= x -> x + 1 <= y -> y <= 360 ->
  Ix <= c * x * (1 + unit_roundoff) ->
  c * y * (1 - unit_roundoff) <= Iy ->
  Ix < Iy.
Proof.
  intros Hc Hx Hxy Hy H1 H2. unfold unit_roundoff in *.
  assert (H : 0 < c * (y * (1 - (1 # 9007199254740992))
                       - x * (1 + (1 # 9007199254740992)))).
  { apply Qmult_lt_0_compat; [exact Hc | lra]. }
  nra.
Qed.

Lemma rounded_total_increases (q c x y Ix Iy Tx Ty : Q) :
  0 < q -> q <= 1002 * c -> 1 <= x -> x + 1 <= y -> y <= 360 ->
  c * x * (1 - unit_roundoff) <= Ix <= c * x * (1 + unit_roundoff) ->
  c * y * (1 - unit_roundoff) <= Iy <= c * y * (1 + unit_roundoff) ->
  Tx <= (q + Ix) * (1 + unit_roundoff) ->
  (q + Iy) * (1 - unit_roundoff) <= Ty ->
  Tx < Ty.
Proof.
  intros Hq Hqc Hx Hxy Hy [H1 H2] [H3 H4] H5 H6. unfold unit_roundoff in *.
  assert (Hc : 0 < c) by lra.
  assert (Hcx : c <= c * x) by nra.
  assert (Hcy : c * y <= 360 * c) by nra.
  assert (Hcxy : c * x + c <= c * y) by nra.
  lra.
Qed.

Lemma rounded_quotient_decreases (q c x y Ix Iy Tx Ty : Q) :
  0 < q -> c <= (1002 # 1000) * q -> 0 < c ->
  1 <= x -> x + 1 <= y -> y <= 360 ->
  c * x * (1 - unit_roundoff) <= Ix ->
  Iy <= c * y * (1 + unit_roundoff) ->
  (q + Ix) * (1 - unit_roundoff) <= Tx ->
  Ty <= (q + Iy) * (1 + unit_roundoff) ->
  Ty / y <= Tx / x.
Proof.
  intros Hq Hcq Hc Hx Hxy Hy H1 H4 H5 H6. unfold unit_roundoff in *.
  apply Qle_shift_div_r; [lra|].
  assert (E : Tx / x * y == Tx * y / x) by (field; lra).
  rewrite E. apply Qle_shift_div_l; [lra|].
  assert (Hcx : c <= c * x) by nra.
  assert (Hcy : c * y <= 360 * c) by nra.
  assert (Hcxy : c * x * y <= 360 * 360 * c) by nra.
  nra.
Qed.

Lemma counter_bounds (j : nat) (n : Z) :
  (Z.of_nat j < n)%Z -> (n <= 360)%Z ->
  1 <= inject_Z (1 + Z.of_nat j) <= 360.
Proof.
  intros Hj Hn. split.
  - change 1 with (inject_Z 1). rewrite <- Zle_Qle. lia.
  - change 360 with (inject_Z 360). rewrite <- Zle_Qle. lia.
Qed.

(** C7.  For every valid principal and rate, under every rounding that is
    monotone and accurate to the unit roundoff of doubles, the (rounded)
    generator returns a schedule along which [interestAmount] and
    [totalAmount] strictly increase with the month and [monthlyPayment]
    never increases. *)
Theorem schedule_monotone_rounded (f : LoanForm) :
  loanAmount f = Some (Fin p) ->
  interestRatePerMonth f = Some (Fin r) ->
  exists rows,
    generateTableData_fl rnd f = Some rows
    /\ forall (j k : nat) (a b : Row),
         (j < k)%nat -> rows !! j = Some a -> rows !! k = Some b ->
         lt (interestAmount a) (interestAmount b) = true
         /\ lt (totalAmount a) (totalAmount b) = true
         /\ le (monthlyPayment b) (monthlyPayment a) = true.
Proof.
  intros Hfp Hfr.
  destruct (generateTableData_fl_shape rnd f)
    as [H|(p' & r' & n & Hp' & Hr' & Hn & H)].
  { exists []. split; [exact H|]. intros j k a b _ Ha. inversion Ha. }
  rewrite Hfp in Hp'. rewrite Hfr in Hr'.
  injection Hp' as <-. injection Hr' as <-.
  eexists. split; [exact H|]. intros j k a b Hjk Ha Hb.
  rewrite list_lookup_fmap in Ha, Hb.
  apply fmap_Some in Ha as (i & Hi & ->). apply fmap_Some in Hb as (i' & Hi' & ->).
  apply lookup_seqZ in Hi as [-> Hj]. apply lookup_seqZ in Hi' as [-> Hk].
  rewrite !tableRow_fl_finite by lia.
  cbn [month interestAmount totalAmount monthlyPayment].
  pose proof (counter_bounds j n Hj Hn) as Hx.
  pose proof (counter_bounds k n Hk Hn) as Hy.
  assert (Hxy : inject_Z (1 + Z.of_nat j) + 1 <= inject_Z (1 + Z.of_nat k)).
  { change 1 with (inject_Z 1). rewrite <- inject_Z_plus, <- Zle_Qle. lia. }
  set (x := inject_Z (1 + Z.of_nat j)) in *.
  set (y := inject_Z (1 + Z.of_nat k)) in *.
  destruct base_interest_bounds as (Hc & Hpc & Hcp).
  pose proof (interest_bounds x Hx) as HIx.
  pose proof (interest_bounds y Hy) as HIy.
  pose proof (total_bounds x Hx) as HTx.
  pose proof (total_bounds y Hy) as HTy.
  cbv zeta in Hc, Hpc, Hcp, HIx, HIy, HTx, HTy.
  set (c := rnd (p * rnd (r / 100))) in *.
  set (Ix := rnd (c * x)) in *. set (Iy := rnd (c * y)) in *.
  set (Tx := rnd (p + Ix)) in *. set (Ty := rnd (p + Iy)) in *.
  assert (Pp : 0 < p) by (unfold valid_principal in Hp; lra).
  split; [|split].
  - apply Qlt_bool_iff.
    apply (rounded_interest_increases c x y); (lra || apply HIx || apply HIy).
  - apply Qlt_bool_iff.
    apply (rounded_total_increases p c x y Ix Iy);
      (lra || assumption || apply HTx || apply HTy).
  - rewrite le_Fin. apply Qle_bool_iff. apply Hmono.
    + apply Qlt_shift_div_l; [lra|]. rewrite Qmult_0_l.
      unfold unit_roundoff in *.
      assert (0 < c * y) by nra. lra.
    + apply (rounded_quotient_decreases p c x y Ix Iy);
        (lra || apply HIx || apply HIy || apply HTx || apply HTy).
Qed.

(** With a valid principal and rate, under every such rounding, every row
    of the schedule holds finite amounts and [monthlyPayment * month],
    taken exactly, is within the relative error [2^-53] of [totalAmount]:
    paying the monthly payment for [month] months repays the total up to
    the rounding of one division. *)
Theorem payments_repay_total_rounded (f : LoanForm) :
  loanAmount f = Some (Fin p) ->
  interestRatePerMonth f = Some (Fin r) ->
  exists rows,
    generateTableData_fl rnd f = Some rows
    /\ forall row, row ∈ rows ->
         exists payment total mo : Q,
           monthlyPayment row = Fin payment
           /\ totalAmount row = Fin total
           /\ month row = Fin mo
           /\ total * (1 - unit_roundoff) <= payment * mo
              <= total * (1 + unit_roundoff).
Proof.
  intros Hfp Hfr.
  destruct (generateTableData_fl_shape rnd f)
    as [H|(p' & r' & n & Hp' & Hr' & Hn & H)].
  { exists []. split; [exact H|]. intros row Hrow. inversion Hrow. }
  rewrite Hfp in Hp'. rewrite Hfr in Hr'.
  injection Hp' as <-. injection Hr' as <-.
  eexists. split; [exact H|]. intros row Hrow.
  apply list_elem_of_fmap in Hrow as (i & -> & Hi).
  apply elem_of_seqZ in Hi.
  rewrite tableRow_fl_finite by lia.
  do 3 eexists. split; [reflexivity|]. split; [reflexivity|].
  split; [reflexivity|].
  assert (Hx : 1 <= inject_Z i <= 360).
  { split.
    - change 1 with (inject_Z 1). rewrite <- Zle_Qle. lia.
    - change 360 with (inject_Z 360). rewrite <- Zle_Qle. lia. }
  set (x := inject_Z i) in *.
  destruct base_interest_bounds as (Hc & Hpc & Hcp).
  pose proof (interest_bounds x Hx) as HIx.
  pose proof (total_bounds x Hx) as HTx.
  cbv zeta in Hc, Hpc, Hcp, HIx, HTx.
  set (c := rnd (p * rnd (r / 100))) in *.
  set (Ix := rnd (c * x)) in *. set (Tx := rnd (p + Ix)) in *.
  assert (Hcx1 : c <= c * x) by nra.
  assert (Hcx2 : c * x <= 360 * c) by nra.
  assert (HT : 1 # 2 <= Tx <= 1073741824).
  { unfold valid_principal in Hp. unfold unit_roundoff in *. split; lra. }
  assert (Hq : 1 # 1024 <= Tx / x <= 1073741824).
  { split.
    - apply Qle_shift_div_l; lra.
    - apply Qle_shift_div_r; [lra|]. nra. }
  pose proof (Hacc _ Hq) as [Hlo Hhi].
  assert (E : forall e, Tx / x * e * x == Tx * e) by (intros e; field; lra).
  split.
  - rewrite <- (E (1 - unit_roundoff)).
    apply Qmult_le_compat_r; [exact Hlo | lra].
  - rewrite <- (E (1 + unit_roundoff)).
    apply Qmult_le_compat_r; [exact Hhi | lra].
Qed.

End RoundedAmounts.

(** The identity, that is exact arithmetic, is such a rounding. *)
Lemma exact_rounding_monotone : rounding_monotone (fun q => q).
Proof. intros x y _ H. exact H. Qed.

Lemma exact_rounding_accurate : rounding_accurate (fun q => q).
Proof. intros x [H1 H2]. unfold unit_roundoff. split; lra. Qed.

Lemma sample_valid_principal : valid_principal (inject_Z 1000).
Proof. unfold valid_principal. split; discriminate. Qed.

Lemma sample_valid_rate : valid_rate (inject_Z 10).
Proof. unfold valid_rate. split; discriminate. Qed.

Lemma schedule_monotone_rounded_witness :
  exists rows,
    generateTableData_fl round53 (sample_form 1) = Some rows
    /\ forall (j k : nat) (a b : Row),
         (j < k)%nat -> rows !! j = Some a -> rows !! k = Some b ->
         lt (interestAmount a) (interestAmount b) = true
         /\ lt (totalAmount a) (totalAmount b) = true
         /\ le (monthlyPayment b) (monthlyPayment a) = true.
Proof.
  apply (schedule_monotone_rounded round53
           round53_monotone round53_accurate
           (inject_Z 1000) (inject_Z 10)
           sample_valid_principal sample_valid_rate (sample_form 1));
    reflexivity.
Defined.

Lemma payments_repay_total_rounded_witness :
  exists rows,
    generateTableData_fl round53 (sample_form 1) = Some rows
    /\ forall row, row ∈ rows ->
         exists payment total mo : Q,
           monthlyPayment row = Fin payment
           /\ totalAmount row = Fin total
           /\ month row = Fin mo
           /\ (total * (1 - unit_roundoff) <= payment * mo
               <= total * (1 + unit_roundoff))%Q.
Proof.
  apply (payments_repay_total_rounded round53
           round53_accurate
           (inject_Z 1000) (inject_Z 10)
           sample_valid_principal sample_valid_rate (sample_form 1));
    reflexivity.
Defined.
